(** * Values generation from OpenAPI schemas (internal/module/openapi.go)

    A shallow embedding of the values generator of dmt: the recursive
    resolver [parseProperties] / [parseProperty], the schema merge
    [mergeSchemas] used for [oneOf] / [anyOf], the digest overlay
    [applyDigests] and the module entry point [ComposeValuesFromSchemas].

    The code is given two semantics.

    - A value semantics: a Go map is a finite map ([gmap]), a schema is a
      tree.  It is the model on which the claims about the produced values
      are stated.
    - A reference semantics ([Module Store]): Go maps and schema pointers
      are locations of a store, so that sharing between the schema and the
      generated values, and in-place updates, are visible.  It is the
      model for the claim about mutation.

    The definitions come first: the value semantics, the inputs of the
    examples, the reference semantics.  The facts follow, in the same
    order; the claims are stated under the heading Claims and in
    [Module StoreFacts].  Further properties of the generator, of the
    overlay of the digests, of the entry point and of the merge over the
    store (X1 to X24) close the file. *)

From stdpp Require Import gmap strings list fin_maps.
From Stdlib Require Import ZArith.

#[local] Set Warnings "-register-all".
#[local] Open Scope string_scope.
#[local] Open Scope nat_scope.

(** ** Go values of type [any]

    The values found in a decoded JSON / YAML document: [nil], booleans,
    numbers, strings, [[]any] and [map[string]any]. *)

Inductive value : Type :=
| VNil
| VBool (b : bool)
| VNum (z : Z)
| VStr (s : string)
| VSlice (l : list value)
| VMap (m : gmap string value).

(** ** Outcomes of a Go call

    A call returns normally, returns a non-nil [error], or panics.  [Diverge]
    is the outcome of a run that exhausted the recursion budget of the
    embedding. *)

Inductive error : Type :=
| ErrNilArguments
| ErrDifferentArgumentsTypes
| ErrExternal (msg : string)
| Errorf (msg : string)
| ErrorfWrap (prefix : string) (err : error).

Inductive outcome (A : Type) : Type :=
| Ok (a : A)
| Err (e : error)
| Panic (msg : string)
| Diverge.

Arguments Ok {A} a.
Arguments Err {A} e.
Arguments Panic {A} msg.
Arguments Diverge {A}.

#[global] Instance outcome_ret : MRet outcome := λ A a, Ok a.

#[global] Instance outcome_bind : MBind outcome := λ A B f x,
  match x with
  | Ok a => f a
  | Err e => Err e
  | Panic msg => Panic msg
  | Diverge => Diverge
  end.

#[global] Instance outcome_fmap : FMap outcome := λ A B f x,
  match x with
  | Ok a => Ok (f a)
  | Err e => Err e
  | Panic msg => Panic msg
  | Diverge => Diverge
  end.

(** ** Schemas (github.com/go-openapi/spec)

    The fields of [spec.Schema] that the generator reads.  A nil map and a
    nil slice are [None]; [Items] is a [*SchemaOrArray], whose fields are a
    [*Schema] and a [[]Schema]. *)

Inductive Schema : Type := mkSchema {
  Type_ : list string;
  Properties : option (gmap string Schema);
  Items : option (option Schema * list Schema);
  Enum : list value;
  Default : value;
  Extensions : gmap string value;
  OneOf : option (list Schema);
  AllOf : option (list Schema);
  AnyOf : option (list Schema)
}.

(** [spec.Schema{}] *)
Definition emptySchema : Schema :=
  mkSchema [] None None [] VNil ∅ None None None.

Definition setProperties (p : option (gmap string Schema)) (s : Schema) : Schema :=
  mkSchema (Type_ s) p (Items s) (Enum s) (Default s) (Extensions s)
           (OneOf s) (AllOf s) (AnyOf s).

Definition setDefault (d : value) (s : Schema) : Schema :=
  mkSchema (Type_ s) (Properties s) (Items s) (Enum s) d (Extensions s)
           (OneOf s) (AllOf s) (AnyOf s).

Definition setCompositions (o a y : option (list Schema)) (s : Schema) : Schema :=
  mkSchema (Type_ s) (Properties s) (Items s) (Enum s) (Default s)
           (Extensions s) o a y.

Definition ExamplesKey : string := "x-examples".
Definition ArrayObject : string := "array".
Definition ObjectKey : string := "object".

(** [StringOrArray.Contains] *)
Definition Contains (t : list string) (v : string) : bool :=
  bool_decide (v ∈ t).

(** [v != nil] for an interface value. *)
Definition notNil (v : value) : bool :=
  match v with VNil => false | _ => true end.

(** [m[k]] on a [map[string]any]: a missing key reads as [nil]. *)
Definition index (m : gmap string value) (k : string) : value :=
  default VNil (m !! k).

(** [prop.Properties] read as a map: ranging over a nil map visits nothing,
    indexing it finds nothing. *)
Definition props (s : Schema) : gmap string Schema :=
  default ∅ (Properties s).

(** ** dario.cat/mergo

    [mergo.Merge(&dst, src, mergo.WithOverride)] on [map[string]any].  The
    library is a third-party dependency, its source is not part of the
    repository; the definitions below follow its [deepMerge] (release 1.0,
    the one behind the import path [dario.cat/mergo]) for the map case,
    with [Overwrite] set and every other option left at its zero value.
    What the claims rest on is the recursion into nested maps: a map of the
    source under a key that holds a map in the destination is merged into
    it, not stored in its place. *)

(** [isEmptyValue], dereferencing interfaces. *)
Definition isEmptyValue (v : value) : bool :=
  match v with
  | VNil => true
  | VBool b => negb b
  | VNum z => bool_decide (z = 0%Z)
  | VStr s => bool_decide (s = "")
  | VSlice l => bool_decide (l = [])
  | VMap m => bool_decide (m = ∅)
  end.

Definition isMap (v : value) : bool :=
  match v with VMap _ => true | _ => false end.

(** One iteration of the loop over [src.MapKeys()]: the entry that [dst]
    holds under a key once the entry [srcElement] of [src] has been
    visited, given the entry [dstElement] that [dst] held before ([None]
    when the key is missing).

    - a nil [srcElement] is stored as it is ([Overwrite] is set);
    - when [srcElement] is a map and [dstElement] is a map too, the source
      map is merged into the destination map by the same loop, and the
      merged destination map is kept if it is not empty;
    - in every other case [dst] receives [srcElement]. *)
Fixpoint mergeElement (dstElement : option value) (srcElement : value)
  {struct srcElement} : value :=
  match srcElement with
  | VMap srcMap =>
      let merged :=
        match dstElement with
        | Some (VMap dstMap) =>
            Some (VMap (map_fold
                          (λ key srcElem dst,
                             <[key := mergeElement (dst !! key) srcElem]> dst)
                          dstMap srcMap))
        | _ => dstElement
        end in
      match merged with
      | Some dstElem =>
          if negb (isEmptyValue dstElem) && isMap dstElem
          then dstElem
          else srcElement
      | None => srcElement
      end
  | _ => srcElement
  end.

(** [deepMerge] on two maps. *)
Definition deepMerge (dst src : gmap string value) : gmap string value :=
  map_fold (λ key srcElem dst, <[key := mergeElement (dst !! key) srcElem]> dst)
           dst src.

(** [mergo.Merge(&dst, src, mergo.WithOverride)] with [dst] a non-nil
    [map[string]any] and [src] an [any]: [resolveValues] rejects a nil
    [src], and [merge] rejects a [src] whose type is not the type of
    [dst]. *)
Definition Merge (dst : gmap string value) (src : value)
  : outcome (gmap string value) :=
  match src with
  | VNil => Err ErrNilArguments
  | VMap srcMap => Ok (deepMerge dst srcMap)
  | _ => Err ErrDifferentArgumentsTypes
  end.

(** ** applyDigests *)

(** [_ = mergo.Merge(&values, obj, mergo.WithOverride)]: the error is
    dropped, [values] is left as it is when the merge fails. *)
Definition applyDigests (digests values : gmap string value)
  : gmap string value :=
  let obj : gmap string value :=
    {[ "global" :=
         VMap {[ "modulesImages" := VMap {[ "digests" := VMap digests ]} ]} ]} in
  match Merge values (VMap obj) with
  | Ok merged => merged
  | _ => values
  end.

(** ** mergeSchemas *)

(** [github.com/mohae/deepcopy]: in a value semantics the copy of a value
    is the value. *)
Definition deepcopy_Copy (s : Schema) : Schema := s.

(** The body of [for i := range schemas]. *)
Definition mergeBranch (rootSchema schema : Schema) : Schema :=
  let properties :=
    map_fold (λ key prop acc, <[key := prop]> acc)
             (props rootSchema) (props schema) in
  setCompositions (OneOf schema) (AllOf schema) (AnyOf schema)
    (setProperties (Some properties) rootSchema).

Definition mergeSchemas (rootSchema : option Schema) (schemas : list Schema)
  : Schema :=
  let rootSchema := default emptySchema rootSchema in
  let rootSchema :=
    match Properties rootSchema with
    | None => setProperties (Some ∅) rootSchema
    | Some _ => rootSchema
    end in
  let rootSchema := setCompositions None None None rootSchema in
  foldl mergeBranch rootSchema schemas.

(** ** The resolver

    [parseProperties] and [parseProperty] call each other.  The functions
    that [parseProperty] dispatches to are written over the recursive call
    [parseProperties], which [Fixpoint parseProperties] below supplies. *)

(** A [map[string]any] returned by [parseProperties] and stored into an
    [any]: a nil map has no entries. *)
Definition mapValue (t : option (gmap string value)) : value :=
  VMap (default ∅ t).

Section Resolver.

Variable parseProperties : option Schema → outcome (option (gmap string value)).

Definition parseExamples (key : string) (prop : Schema)
           (result : gmap string value) : outcome (gmap string value) :=
  example ←
    match index (Extensions prop) ExamplesKey with
    | VSlice conv =>
        match conv with
        | first :: _ => Ok first
        | [] => Panic "index out of range [0] with length 0"
        end
    | VMap conv => Ok (VMap conv)
    | _ => Ok VNil
    end;
  if notNil example then
    if Contains (Type_ prop) ObjectKey then
      t ← parseProperties (Some prop);
      t ← Merge (default ∅ t) example;
      Ok (<[key := VMap t]> result)
    else Ok (<[key := example]> result)
  else Ok result.

Definition parseEnum (key : string) (prop : Schema)
           (result : gmap string value) : outcome (gmap string value) :=
  match Enum prop with
  | first :: _ =>
      let t := if notNil (Default prop) then Default prop else first in
      Ok (<[key := t]> result)
  | [] => Panic "index out of range [0] with length 0"
  end.

Definition parseObject (key : string) (prop : Schema)
           (result : gmap string value) : outcome (gmap string value) :=
  t ← parseProperties (Some prop);
  Ok (<[key := mapValue t]> result).

(** [prop.Items.Schema], a nil pointer dereference when [Items] is nil. *)
Definition parseArray (key : string) (prop : Schema)
           (result : gmap string value) : outcome (gmap string value) :=
  match Items prop with
  | Some (Some items, _) =>
      if notNil (Default items) then Ok (<[key := Default items]> result)
      else
        t ← parseProperties (Some items);
        match t with
        | Some t => Ok (<[key := VMap t]> result)
        | None => Ok result
        end
  | _ => Panic "invalid memory address or nil pointer dereference"
  end.

Definition parseOneOf (key : string) (prop : Schema)
           (result : gmap string value) : outcome (gmap string value) :=
  let downwardSchema := deepcopy_Copy prop in
  let mergedSchema :=
    mergeSchemas (Some downwardSchema) (default [] (OneOf prop)) in
  t ← parseProperties (Some mergedSchema);
  Ok (<[key := mapValue t]> result).

Definition parseAnyOf (key : string) (prop : Schema)
           (result : gmap string value) : outcome (gmap string value) :=
  let downwardSchema := deepcopy_Copy prop in
  let mergedSchema :=
    mergeSchemas (Some downwardSchema) (default [] (AnyOf prop)) in
  t ← parseProperties (Some mergedSchema);
  Ok (<[key := mapValue t]> result).

(** [prop.Items != nil && prop.Items.Schema != nil] *)
Definition hasItemsSchema (prop : Schema) : bool :=
  match Items prop with
  | Some (Some _, _) => true
  | _ => false
  end.

(** The [switch] of [parseProperty]: the first case whose condition holds
    is taken, no case falls through. *)
Definition parseProperty (key : string) (prop : Schema)
           (result : gmap string value) : outcome (gmap string value) :=
  if notNil (index (Extensions prop) ExamplesKey) then
    parseExamples key prop result
  else if bool_decide (0 < length (Enum prop)) then
    parseEnum key prop result
  else if Contains (Type_ prop) ObjectKey then
    parseObject key prop result
  else if notNil (Default prop) then
    Ok (<[key := Default prop]> result)
  else if Contains (Type_ prop) ArrayObject && hasItemsSchema prop then
    parseArray key prop result
  else if bool_decide (is_Some (AllOf prop)) then
    Ok result
  else if bool_decide (is_Some (OneOf prop)) then
    parseOneOf key prop result
  else if bool_decide (is_Some (AnyOf prop)) then
    parseAnyOf key prop result
  else Ok result.

End Resolver.

(** [parseProperties]: the loop [for key := range tempNode.Properties].  Go
    leaves the order of a [range] over a map unspecified; the embedding
    visits the keys in the order of [map_fold].  Each key is visited once
    and writes [result[key]] only, so the map returned on success does not
    depend on the order. *)
Fixpoint parseProperties (fuel : nat) (tempNode : option Schema)
  : outcome (option (gmap string value)) :=
  match fuel with
  | O => Diverge
  | S fuel =>
      match tempNode with
      | None => Ok None
      | Some node =>
          result ←
            map_fold
              (λ key prop acc,
                 result ← acc;
                 parseProperty (parseProperties fuel) key prop result)
              (Ok ∅) (props node);
          Ok (Some result)
      end
  end.

(** The fields that the merge never writes. *)
Definition sameLiterals (s1 s2 : Schema) : Prop :=
  Type_ s1 = Type_ s2 ∧ Items s1 = Items s2 ∧ Enum s1 = Enum s2 ∧
  Default s1 = Default s2 ∧ Extensions s1 = Extensions s2.

(** ** Recursion budget

    The recursion of [parseProperties] follows the nesting of the schema:
    a call on a node reaches its properties, its item schema, and the
    properties of its [oneOf] / [anyOf] branches.  [depth] bounds that
    nesting, so a budget above the depth of the node is always enough, and
    the outcome does not depend on the budget once it is enough. *)

Definition maxOf {A} (f : A → nat) (l : list A) : nat :=
  foldr (λ x n, Nat.max (f x) n) 0 l.

Definition maxOfMap {A} (f : A → nat) (m : gmap string A) : nat :=
  map_fold (λ _ x n, Nat.max (f x) n) 0 m.

Fixpoint depth (s : Schema) : nat :=
  match s with
  | mkSchema _ properties items _ _ _ oneOf _ anyOf =>
      S (Nat.max
           (Nat.max
              (Nat.max
                 match properties with
                 | Some m => maxOfMap depth m
                 | None => 0
                 end
                 match items with
                 | Some (Some schema, _) => depth schema
                 | _ => 0
                 end)
              match oneOf with Some l => maxOf depth l | None => 0 end)
           match anyOf with Some l => maxOf depth l | None => 0 end)
  end.

Definition depthOpt (x : option Schema) : nat :=
  match x with Some s => depth s | None => 0 end.

(** [OpenAPIValuesGenerator.Do]: [parseProperties] on the root schema, run
    with a budget above the depth of the root. *)
Definition Do (rootSchema : option Schema)
  : outcome (option (gmap string value)) :=
  parseProperties (S (depthOpt rootSchema)) rootSchema.

(** The loop of [parseProperties] over the recursive call [rec]. *)
Definition parsePropertiesLoop
           (rec : option Schema → outcome (option (gmap string value)))
           (node : Schema) : outcome (gmap string value) :=
  map_fold (λ key prop acc, result ← acc; parseProperty rec key prop result)
           (Ok ∅) (props node).

(** ** What a property resolves to

    [parseProperty] writes at most [result[key]], and what it writes does
    not depend on [result].  [resolve] is the entry written: [None] when
    the property produces no value. *)

Definition resolve (rec : option Schema → outcome (option (gmap string value)))
           (key : string) (prop : Schema) : outcome (option value) :=
  (λ result : gmap string value, result !! key) <$> parseProperty rec key prop ∅.

(** [result[key] = v] when a value is produced, nothing otherwise. *)
Definition assign (key : string) (produced : option value)
           (result : gmap string value) : gmap string value :=
  match produced with
  | Some v => <[key := v]> result
  | None => result
  end.

(** ** The precedence rules

    The conditions of the first five cases of the [switch], in the order of
    the code. *)

Definition hasExamples (prop : Schema) : bool :=
  notNil (index (Extensions prop) ExamplesKey).
Definition hasEnum (prop : Schema) : bool :=
  bool_decide (0 < length (Enum prop)).
Definition isObject (prop : Schema) : bool :=
  Contains (Type_ prop) ObjectKey.
Definition hasDefault (prop : Schema) : bool :=
  notNil (Default prop).
Definition isArrayWithItems (prop : Schema) : bool :=
  Contains (Type_ prop) ArrayObject && hasItemsSchema prop.

(** None of the rules 1 to 5 matches. *)
Definition noRule1to5 (prop : Schema) : bool :=
  negb (hasExamples prop) && negb (hasEnum prop) && negb (isObject prop) &&
  negb (hasDefault prop) && negb (isArrayWithItems prop).

(** Reading a key of a value that may be a mapping: a value that is not a
    mapping has no keys. *)
Definition vget (key : string) (v : option value) : option value :=
  match v with
  | Some (VMap m) => m !! key
  | _ => None
  end.

(** ** The module entry point *)

(** Modelled from the spec: the schema documents that the external schema
    loader (package [valuesvalidation], not among the sources) hands over.
    A document maps a top-level key, such as ["values"], to a schema; the
    loader keeps one document per module, by module name, and one for the
    global values. *)
Record SchemaStorage : Type := {
  Schemas : option (gmap string (option Schema))
}.

Record ValuesValidator : Type := {
  GlobalSchemaStorage : SchemaStorage;
  ModuleSchemaStorages : gmap string SchemaStorage
}.

(** [storage.Schemas[key]] with its [ok]: a nil map has no key. *)
Definition schemaAt (storage : SchemaStorage) (key : string)
  : option (option Schema) :=
  Schemas storage ≫= (λ schemas, schemas !! key).

(** Helm's [chartutil.DefaultCapabilities] (a third-party package, its
    source is not part of the repository) is a package-level variable of
    type [*chartutil.Capabilities]: a pointer to one object, shared by the
    whole program.  The code handles no other pointer of this type.  The
    API versions of the object are a state that [helmFormatModuleImages]
    reads and writes; the functions that reach it take the versions the
    object has when they are called, and return, beside their outcome, the
    versions that they leave. *)
Inductive CapabilitiesPtr : Type := DefaultCapabilities.

(** [caps.APIVersions], read when the object holds [apiVersions]. *)
Definition APIVersions (caps : CapabilitiesPtr) (apiVersions : list string)
  : list string :=
  match caps with
  | DefaultCapabilities => apiVersions
  end.

Record HelmRelease : Type := {
  Name : string;
  Namespace : string;
  IsUpgrade : bool;
  IsInstall : bool;
  Revision : Z;
  Service : string
}.

Section Compose.

(** The module at hand and the collaborators of the entry point: the
    module's chart metadata, the schema loader, the camel-casing of the
    module name, the built-in digest table, and the digest file next to the
    module ([os.Stat] gives its size or fails; reading and decoding it
    gives a table or fails). *)
Variable ChartMetadata : Type.

Record Module : Type := {
  GetName : string;
  GetPath : string;
  GetNamespace : string;
  GetMetadata : ChartMetadata
}.

Record RenderContext : Type := {
  Chart : ChartMetadata;
  Capabilities : CapabilitiesPtr;
  Release : HelmRelease;
  Values : gmap string value
}.

Variable NewValuesValidator : string → string → option ValuesValidator + error.
Variable ToLowerCamel : string → string.
Variable DefaultImagesDigests : gmap string value.
Variable statDigestFile : string → option Z.
Variable getModulesImagesDigestsFromLocalPath
  : string → gmap string value + error.

Definition GetModulesImagesDigests (modulePath : string)
  : outcome (gmap string value) :=
  let search :=
    match statDigestFile modulePath with
    | None => true
    | Some size => bool_decide (size = 0%Z)
    end in
  if search then Ok DefaultImagesDigests
  else
    match getModulesImagesDigestsFromLocalPath modulePath with
    | inr err => Err err
    | inl modulesDigests => Ok modulesDigests
    end.

(** [caps] is the pointer [chartutil.DefaultCapabilities], not a copy of
    the object: [caps.APIVersions = vers] writes the appended list into the
    shared object, before the digests are read, and the context holds the
    pointer.  The versions are written back on every call, also on a call
    that then fails to read the digests. *)
Definition helmFormatModuleImages (m : Module) (rawValues : gmap string value)
           (apiVersions : list string)
  : outcome (option RenderContext) * list string :=
  let caps := DefaultCapabilities in
  let vers :=
    (APIVersions caps apiVersions
       ++ ["autoscaling.k8s.io/v1/VerticalPodAutoscaler"])%list in
  (digests ← GetModulesImagesDigests (GetPath m);
   let rawValues := applyDigests digests rawValues in
   Ok (Some {| Chart := GetMetadata m;
               Capabilities := caps;
               Release := {| Name := GetName m;
                              Namespace := GetNamespace m;
                              IsUpgrade := true;
                              IsInstall := true;
                              Revision := 0;
                              Service := "Helm" |};
               Values := rawValues |}),
   vers).

(** [fmt.Errorf("generate values: %w", err)] on an error of the generator;
    a panic is not an error and goes through. *)
Definition wrapError {A} (prefix : string) (x : outcome A) : outcome A :=
  match x with
  | Err err => Err (ErrorfWrap prefix err)
  | _ => x
  end.

(** The second half of [ComposeValuesFromSchemas], from the module schema
    [values] found under ["values"] on: [global] is what the lookup of
    ["values"] in the global document gave.  When the generator does not
    return, [helmFormatModuleImages] is not called and the API versions are
    left as they are. *)
Definition composeFromValues (m : Module) (camelizedModuleName : string)
           (values : Schema) (global : option (option Schema))
           (apiVersions : list string)
  : outcome (option RenderContext) * list string :=
  let moduleSchema := setDefault (VMap ∅) values in
  let globalSchema :=
    match global with
    | Some (Some values) => values
    | _ => emptySchema
    end in
  let globalSchema := setDefault (VMap ∅) globalSchema in
  let combinedSchema :=
    setProperties
      (Some (<["global" := globalSchema]>
               {[ camelizedModuleName := moduleSchema ]}))
      emptySchema in
  match wrapError "generate values: " (Do (Some combinedSchema)) with
  | Ok rawValues => helmFormatModuleImages m (default ∅ rawValues) apiVersions
  | Err err => (Err err, apiVersions)
  | Panic msg => (Panic msg, apiVersions)
  | Diverge => (Diverge, apiVersions)
  end.

Definition ComposeValuesFromSchemas (m : Module) (apiVersions : list string)
  : outcome (option RenderContext) * list string :=
  match NewValuesValidator (GetName m) (GetPath m) with
  | inr err => (Err (ErrorfWrap "schemas load: " err), apiVersions)
  | inl None => (Ok None, apiVersions)
  | inl (Some valueValidator) =>
      let camelizedModuleName := ToLowerCamel (GetName m) in
      match ModuleSchemaStorages valueValidator !! GetName m with
      | None => (Ok None, apiVersions)
      | Some schema =>
          match Schemas schema with
          | None => (Ok None, apiVersions)
          | Some _ =>
              match schemaAt schema "values" with
              | Some (Some values) =>
                  composeFromValues m camelizedModuleName values
                    (schemaAt (GlobalSchemaStorage valueValidator) "values")
                    apiVersions
              | _ =>
                  (Err (Errorf ("cannot find openapi values schema for module "
                                  ++ GetName m)),
                   apiVersions)
              end
          end
      end
  end.

End Compose.

Arguments GetName {ChartMetadata} _.
Arguments GetPath {ChartMetadata} _.
Arguments GetNamespace {ChartMetadata} _.
Arguments GetMetadata {ChartMetadata} _.
Arguments Chart {ChartMetadata} _.
Arguments Capabilities {ChartMetadata} _.
Arguments Release {ChartMetadata} _.
Arguments Values {ChartMetadata} _.

(** A copy of the validator whose global document is [storage]. *)
Definition withGlobal (storage : SchemaStorage) (valueValidator : ValuesValidator)
  : ValuesValidator :=
  {| GlobalSchemaStorage := storage;
     ModuleSchemaStorages := ModuleSchemaStorages valueValidator |}.

(** A global document whose ["values"] schema is the empty schema. *)
Definition emptyGlobal : SchemaStorage :=
  {| Schemas := Some {[ "values" := Some emptySchema ]} |}.

(** ** The schemas and documents of the examples *)

Definition enumOnly : Schema :=
  mkSchema ["string"] None None [VStr "a"; VStr "b"; VStr "c"] VNil ∅
           None None None.

Definition enumWithDefault : Schema := setDefault (VStr "b") enumOnly.

Definition emptyExamples : Schema :=
  mkSchema ["string"] None None [] (VStr "d") {[ ExamplesKey := VSlice [] ]}
           None None None.

Definition allOfOnly : Schema :=
  mkSchema [] None None [] VNil ∅ None
           (Some [setDefault (VNum 1) emptySchema]) None.

Definition withAllOfOnly : Schema :=
  setProperties
    (Some {[ "replicas" := setDefault (VNum 3) emptySchema;
             "extra" := allOfOnly ]})
    emptySchema.

Definition branchA1 : Schema :=
  setProperties (Some {[ "a" := setDefault (VNum 1) emptySchema ]}) emptySchema.

Definition branchA2B3 : Schema :=
  setProperties (Some {[ "a" := setDefault (VNum 2) emptySchema;
                         "b" := setDefault (VNum 3) emptySchema ]})
                emptySchema.

Definition oneOfOnly : Schema :=
  setCompositions (Some [branchA1; branchA2B3]) None None emptySchema.

Definition oneOfAndAllOf : Schema :=
  setCompositions (Some [branchA1; branchA2B3]) (Some [branchA1]) None
                  emptySchema.

Definition arrayOf (items : Schema) : Schema :=
  mkSchema ["array"] None (Some (Some items, [])) [] VNil ∅ None None None.

Definition objectWithExample (example : value) (properties : gmap string Schema)
  : Schema :=
  mkSchema ["object"] (Some properties) None [] VNil {[ ExamplesKey := example ]}
           None None None.

Definition exampleX1 : Schema :=
  objectWithExample (VMap {[ "x" := VNum 1 ]})
                    {[ "y" := setDefault (VNum 2) emptySchema ]}.

Definition exampleY9 : Schema :=
  objectWithExample (VSlice [VMap {[ "y" := VNum 9 ]}])
                    {[ "y" := setDefault (VNum 2) emptySchema ]}.

Definition exampleNested : Schema :=
  objectWithExample
    (VMap {[ "y" := VMap {[ "a" := VNum 1 ]} ]})
    {[ "y" := mkSchema ["object"]
                (Some {[ "b" := setDefault (VNum 2) emptySchema ]})
                None [] VNil ∅ None None None ]}.

Definition exampleScalar : Schema :=
  objectWithExample (VSlice [VStr "plain"])
                    {[ "y" := setDefault (VNum 2) emptySchema ]}.

Definition digestTable : gmap string value := {[ "img" := VStr "sha256:abc" ]}.

Definition valuesWithDigests : gmap string value :=
  {[ "global" :=
       VMap {[ "modulesImages" :=
                 VMap {[ "digests" := VMap {[ "old" := VStr "sha256:old" ]};
                         "registry" := VStr "registry.example.com" ]};
               "clusterName" := VStr "main" ]};
     "myModule" := VMap {[ "replicas" := VNum 3 ]} ]}.

(** A module [my-module] with a one-property values schema, and the ways
    its documents can lack ["values"]. *)
Definition myModule : Module unit :=
  {| GetName := "my-module"; GetPath := "/modules/my-module";
     GetNamespace := "d8-my-module"; GetMetadata := tt |}.

Definition myValues : Schema :=
  mkSchema ["object"]
           (Some {[ "replicas" := setDefault (VNum 3) emptySchema ]})
           None [] VNil ∅ None None None.

Definition moduleWithValues : SchemaStorage :=
  {| Schemas := Some {[ "values" := Some myValues ]} |}.

Definition moduleWithoutValues : SchemaStorage :=
  {| Schemas := Some {[ "config-values" := Some myValues ]} |}.

Definition globalWithoutValues : SchemaStorage :=
  {| Schemas := Some {[ "config-values" := Some emptySchema ]} |}.

Definition loaded (moduleStorage globalStorage : SchemaStorage)
  : string → string → option ValuesValidator + error :=
  λ _ _, inl (Some {| GlobalSchemaStorage := globalStorage;
                      ModuleSchemaStorages := {[ "my-module" := moduleStorage ]} |}).

(** No digest file next to the module: the built-in table is used.  The
    API versions of the default capabilities are [["v1"]] when the call
    starts. *)
Definition compose (moduleStorage globalStorage : SchemaStorage)
  : outcome (option (RenderContext unit)) * list string :=
  ComposeValuesFromSchemas unit (loaded moduleStorage globalStorage)
    (λ _, "myModule") digestTable (λ _, None)
    (λ _, inr (ErrExternal "no digest file")) myModule ["v1"].

(** ** Measures and shapes of values *)

(** A value that is neither nil, nor a sequence, nor a mapping. *)
Definition isScalar (v : value) : bool :=
  match v with
  | VBool _ | VNum _ | VStr _ => true
  | _ => false
  end.

(** The number of nodes of a value. *)
Fixpoint vsize (v : value) : nat :=
  match v with
  | VSlice l => S (foldr (λ x n, vsize x + n) 0 l)
  | VMap m => S (map_fold (λ _ x n, vsize x + n) 0 m)
  | _ => 1
  end.

(** The candidate example of [parseExamples]: the extension value when it
    is a mapping, its first element when it is a non-empty sequence. *)
Definition isCandidate (extension example : value) : Prop :=
  (∃ conv, extension = VMap conv ∧ example = VMap conv) ∨
  (∃ rest, extension = VSlice (example :: rest)).

(** The generator's own view of a property whose [oneOf] is resolved: the
    property of the last branch that defines the key, else the property of
    the base. *)
Definition lastDefinition (key : string) (base : Schema) (branches : list Schema)
  : option Schema :=
  match last (omap (λ branch, props branch !! key) branches) with
  | Some prop => Some prop
  | None => props base !! key
  end.

(** What is found under a key of the output once a property, if any, has
    been resolved. *)
Definition produced (key : string) (prop : option Schema) : option value :=
  match prop with
  | Some prop =>
      match resolve Do key prop with
      | Ok produced => produced
      | _ => None
      end
  | None => None
  end.

(** ** Further inputs *)

(** A digest table as [images_digests.json] has it, one mapping of images
    per module, and a tree that already holds a digest of the same
    module. *)
Definition nestedDigestTable : gmap string value :=
  {[ "myModule" := VMap {[ "newImage" := VStr "sha256:new" ]} ]}.

Definition valuesWithNestedDigests : gmap string value :=
  {[ "global" :=
       VMap {[ "modulesImages" :=
                 VMap {[ "digests" :=
                           VMap {[ "myModule" :=
                                     VMap {[ "oldImage" := VStr "sha256:old" ]} ]} ]} ]} ]}.

Definition withScalarExample : Schema :=
  setProperties
    (Some {[ "replicas" := setDefault (VNum 3) emptySchema;
             "auth" := exampleScalar ]})
    emptySchema.

Definition verbatimExample : Schema :=
  mkSchema ["string"] None None [VStr "a"] (VStr "d")
           {[ ExamplesKey := VSlice [VStr "first"; VStr "second"] ]}
           None None None.

Definition scalarExample : Schema :=
  mkSchema ["string"] None None [VStr "a"] (VStr "d")
           {[ ExamplesKey := VStr "plain" ]} None None None.

Definition objectWithDefault : Schema :=
  mkSchema ["object"]
           (Some {[ "replicas" := setDefault (VNum 3) emptySchema ]})
           None [] (VMap {[ "replicas" := VNum 7 ]}) ∅ None None None.

Definition arrayWithDefault : Schema :=
  mkSchema ["array"] None (Some (Some (setDefault (VStr "x") emptySchema), []))
           [] (VSlice [VStr "d"]) ∅ (Some [branchA1]) None (Some [branchA2B3]).

Definition anyOfOnly : Schema :=
  setCompositions None None (Some [branchA1; branchA2B3]) emptySchema.

Definition oneOfAndAnyOf : Schema :=
  setCompositions (Some [branchA1]) None (Some [branchA2B3]) emptySchema.

Definition emptyOneOf : Schema :=
  mkSchema [] (Some {[ "a" := setDefault (VNum 1) emptySchema ]})
           None [] VNil ∅ (Some []) None None.

(** ** The faults of the generator *)

(** The message of the runtime panic of [conv[0]] and [prop.Enum[0]] on an
    empty sequence. *)
Definition indexOutOfRange : string := "index out of range [0] with length 0".

(** An outcome that is a success, or one of the two failures that the
    generator has of its own: the error of [mergo.Merge] on an example that
    is not a mapping, and the panic of [conv[0]]. *)
Definition ownFailure {A} (x : outcome A) : Prop :=
  match x with
  | Ok _ => True
  | Err e => e = ErrDifferentArgumentsTypes
  | Panic msg => msg = indexOutOfRange
  | Diverge => False
  end.


(** ** The render context *)

(** [combinedSchema] of [ComposeValuesFromSchemas]: the module schema under
    the camel-cased module name and the global schema under ["global"],
    each with an empty mapping as default. *)
Definition combinedSchema (camelizedModuleName : string) (values : Schema)
           (global : option (option Schema)) : Schema :=
  setProperties
    (Some (<["global" := setDefault (VMap ∅)
                           match global with
                           | Some (Some values) => values
                           | _ => emptySchema
                           end]>
             {[ camelizedModuleName := setDefault (VMap ∅) values ]}))
    emptySchema.

(** The map [top] of [helmFormatModuleImages]. *)
Definition top {ChartMetadata} (m : Module ChartMetadata)
           (rawValues : gmap string value)
  : RenderContext ChartMetadata :=
  {| Chart := GetMetadata m;
     Capabilities := DefaultCapabilities;
     Release := {| Name := GetName m; Namespace := GetNamespace m;
                   IsUpgrade := true; IsInstall := true;
                   Revision := 0; Service := "Helm" |};
     Values := rawValues |}.

(** A values schema without a type: its properties and its [oneOf] are
    there, but it is not declared an object. *)
Definition untypedValues : Schema :=
  mkSchema [] (Some {[ "replicas" := setDefault (VNum 3) emptySchema ]})
           None [] VNil ∅ (Some [branchA1]) None None.

Definition moduleWithUntypedValues : SchemaStorage :=
  {| Schemas := Some {[ "values" := Some untypedValues ]} |}.

(** The loader fails, finds no schemas at all, or none for the module. *)
Definition loadFails : string → string → option ValuesValidator + error :=
  λ _ _, inr (ErrExternal "open openapi/values.yaml: permission denied").

Definition noSchemas : string → string → option ValuesValidator + error :=
  λ _ _, inl None.

(** The entry point of [my-module] over a loader and a digest file, from
    default capabilities whose API versions are [["v1"]]. *)
Definition composeWith
           (NewValuesValidator : string → string → option ValuesValidator + error)
           (statDigestFile : string → option Z)
           (getModulesImagesDigestsFromLocalPath : string → gmap string value + error)
  : outcome (option (RenderContext unit)) * list string :=
  ComposeValuesFromSchemas unit NewValuesValidator (λ _, "myModule")
    digestTable statDigestFile getModulesImagesDigestsFromLocalPath myModule
    ["v1"].

(** * Reference semantics

    In Go a map is a reference, and so is a [*spec.Schema].  The generator
    stores values of the schema (defaults, examples) into the maps it
    builds without copying them, and [mergo] and [mergeSchemas] update maps
    in place.  [Module Store] runs the same code over a store in which maps and
    schema pointers are locations, so that such sharing and such updates
    can be observed. *)

Module Store.

(** A location is an index of the store. *)
Abbreviation loc := nat (only parsing).

(** Values of type [any]; a [map[string]any] is a reference. *)
Inductive value : Type :=
| VNil
| VBool (b : bool)
| VNum (z : Z)
| VStr (s : string)
| VSlice (l : list value)
| VMap (l : loc).

(** [spec.Schema].  [Properties] and [Extensions] are maps, hence
    references ([None] is the nil map); the [*Schema] inside [Items] is a
    pointer to a schema of the store.  Slices are never written to by the
    code and are kept as lists. *)
Inductive Schema : Type := mkSchema {
  Type_ : list string;
  Properties : option loc;
  Items : option (option loc * list Schema);
  Enum : list value;
  Default : value;
  Extensions : option loc;
  OneOf : option (list Schema);
  AllOf : option (list Schema);
  AnyOf : option (list Schema)
}.

Definition emptySchema : Schema :=
  mkSchema [] None None [] VNil None None None None.

Definition setProperties (p : option loc) (s : Schema) : Schema :=
  mkSchema (Type_ s) p (Items s) (Enum s) (Default s) (Extensions s)
           (OneOf s) (AllOf s) (AnyOf s).

Definition setCompositions (o a y : option (list Schema)) (s : Schema) : Schema :=
  mkSchema (Type_ s) (Properties s) (Items s) (Enum s) (Default s)
           (Extensions s) o a y.

(** The objects of the store: a [map[string]any], a [map[string]Schema],
    and a schema behind a pointer. *)
Inductive cell : Type :=
| CVals (m : gmap string value)
| CProps (m : gmap string Schema)
| CSchema (s : Schema).

(** The store is the list of its objects; allocation appends. *)
Abbreviation store := (list cell) (only parsing).

(** A computation over the store. *)
Definition M (A : Type) : Type := store → outcome (A * store).

#[global] Instance M_ret : MRet M := λ A a σ, Ok (a, σ).

#[global] Instance M_bind : MBind M := λ A B f x σ,
  match x σ with
  | Ok (a, σ') => f a σ'
  | Err e => Err e
  | Panic msg => Panic msg
  | Diverge => Diverge
  end.

Definition fail {A} (e : error) : M A := λ _, Err e.
Definition panic {A} (msg : string) : M A := λ _, Panic msg.
Definition diverge {A} : M A := λ _, Diverge.

Definition alloc (c : cell) : M loc := λ σ, Ok (length σ, (σ ++ [c])%list).

Definition readVals (l : loc) : M (gmap string value) := λ σ,
  match σ !! l with
  | Some (CVals m) => Ok (m, σ)
  | _ => Panic "not a map[string]any"
  end.

Definition writeVals (l : loc) (m : gmap string value) : M unit := λ σ,
  match σ !! l with
  | Some (CVals _) => Ok (tt, <[l := CVals m]> σ)
  | _ => Panic "not a map[string]any"
  end.

Definition readProps (l : loc) : M (gmap string Schema) := λ σ,
  match σ !! l with
  | Some (CProps m) => Ok (m, σ)
  | _ => Panic "not a map[string]Schema"
  end.

Definition writeProps (l : loc) (m : gmap string Schema) : M unit := λ σ,
  match σ !! l with
  | Some (CProps _) => Ok (tt, <[l := CProps m]> σ)
  | _ => Panic "not a map[string]Schema"
  end.

Definition readSchema (l : loc) : M Schema := λ σ,
  match σ !! l with
  | Some (CSchema s) => Ok (s, σ)
  | _ => Panic "not a *Schema"
  end.

Definition writeSchema (l : loc) (s : Schema) : M unit := λ σ,
  match σ !! l with
  | Some (CSchema _) => Ok (tt, <[l := CSchema s]> σ)
  | _ => Panic "not a *Schema"
  end.

(** [m[key] = v] on a [map[string]any]. *)
Definition setIndex (l : loc) (key : string) (v : value) : M unit :=
  m ← readVals l; writeVals l (<[key := v]> m).

(** [for _, x := range xs { body }] *)
Fixpoint forEach {A} (xs : list A) (body : A → M unit) : M unit :=
  match xs with
  | [] => mret tt
  | x :: xs => body x;; forEach xs body
  end.

(** [xs] mapped by a computation, left to right. *)
Fixpoint mapEach {A B} (xs : list A) (f : A → M B) : M (list B) :=
  match xs with
  | [] => mret []
  | x :: xs => y ← f x; ys ← mapEach xs f; mret (y :: ys)
  end.

(** The keys of a map, in the order in which the embedding ranges over
    it. *)
Definition keys {A} (m : gmap string A) : list string := (map_to_list m).*1.

(** ** dario.cat/mergo over the store *)

(** [isEmptyValue]: the emptiness of a map is read from the store. *)
Definition isEmptyValue (v : value) : M bool :=
  match v with
  | VNil => mret true
  | VBool b => mret (negb b)
  | VNum z => mret (bool_decide (z = 0%Z))
  | VStr s => mret (bool_decide (s = ""))
  | VSlice l => mret (bool_decide (l = []))
  | VMap l => m ← readVals l; mret (bool_decide (m = ∅))
  end.

Definition isMap (v : value) : bool :=
  match v with VMap _ => true | _ => false end.

(** [deepMerge] on two maps, with [Overwrite] set.  The destination map is
    updated in place ([dst.SetMapIndex]); a map of the source that is
    stored into the destination is stored as a reference.  The budget
    bounds the nesting that is followed. *)
Fixpoint deepMerge (fuel : nat) (dst src : loc) : M unit :=
  match fuel with
  | O => diverge
  | S fuel =>
      srcMap ← readVals src;
      forEach (keys srcMap) (λ key,
        srcMap ← readVals src;
        match srcMap !! key with
        | None => mret tt
        | Some srcElement =>
            dstMap ← readVals dst;
            let dstElement := dstMap !! key in
            match srcElement with
            | VNil => setIndex dst key srcElement
            | VMap srcLoc =>
                match dstElement with
                | Some (VMap dstLoc) => deepMerge fuel dstLoc srcLoc
                | _ => mret tt
                end;;
                keep ←
                  match dstElement with
                  | Some dstElem =>
                      empty ← isEmptyValue dstElem;
                      mret (negb empty && isMap dstElem)
                  | None => mret false
                  end;
                if keep : bool then mret tt else setIndex dst key srcElement
            | _ => setIndex dst key srcElement
            end
        end)
  end.

(** [mergo.Merge(&dst, src, mergo.WithOverride)], [dst] a non-nil map. *)
Definition Merge (fuel : nat) (dst : loc) (src : value) : M unit :=
  match src with
  | VNil => fail ErrNilArguments
  | VMap srcLoc => deepMerge fuel dst srcLoc
  | _ => fail ErrDifferentArgumentsTypes
  end.

(** ** github.com/mohae/deepcopy over the store

    Every map and every schema behind a pointer that is reached is copied
    into a fresh location. *)
Fixpoint copyValue (fuel : nat) (v : value) : M value :=
  match fuel with
  | O => diverge
  | S fuel =>
      match v with
      | VSlice l => l' ← mapEach l (copyValue fuel); mret (VSlice l')
      | VMap l =>
          m ← readVals l;
          entries ← mapEach (map_to_list m)
                            (λ kv, v' ← copyValue fuel kv.2; mret (kv.1, v'));
          l' ← alloc (CVals (list_to_map entries));
          mret (VMap l')
      | _ => mret v
      end
  end.

Definition copyVals (fuel : nat) (l : option loc) : M (option loc) :=
  match l with
  | None => mret None
  | Some l =>
      v ← copyValue fuel (VMap l);
      match v with
      | VMap l' => mret (Some l')
      | _ => mret None
      end
  end.

Fixpoint copySchema (fuel : nat) (s : Schema) : M Schema :=
  match fuel with
  | O => diverge
  | S fuel =>
      let copyList (l : option (list Schema)) : M (option (list Schema)) :=
        match l with
        | None => mret None
        | Some l => l' ← mapEach l (copySchema fuel); mret (Some l')
        end in
      let copyPtr (p : option loc) : M (option loc) :=
        match p with
        | None => mret None
        | Some p =>
            s ← readSchema p;
            s' ← copySchema fuel s;
            p' ← alloc (CSchema s');
            mret (Some p')
        end in
      properties ←
        match Properties s with
        | None => mret None
        | Some l =>
            m ← readProps l;
            entries ← mapEach (map_to_list m)
                              (λ kp, p' ← copySchema fuel kp.2; mret (kp.1, p'));
            l' ← alloc (CProps (list_to_map entries));
            mret (Some l')
        end;
      items ←
        match Items s with
        | None => mret None
        | Some (schema, schemas) =>
            schema' ← copyPtr schema;
            schemas' ← mapEach schemas (copySchema fuel);
            mret (Some (schema', schemas'))
        end;
      enum ← mapEach (Enum s) (copyValue fuel);
      default ← copyValue fuel (Default s);
      extensions ← copyVals fuel (Extensions s);
      oneOf ← copyList (OneOf s);
      allOf ← copyList (AllOf s);
      anyOf ← copyList (AnyOf s);
      mret (mkSchema (Type_ s) properties items enum default extensions
                     oneOf allOf anyOf)
  end.

(** [deepcopy.Copy(prop)], a pointer to the copy. *)
Definition deepcopy_Copy (fuel : nat) (prop : loc) : M loc :=
  s ← readSchema prop;
  s' ← copySchema fuel s;
  alloc (CSchema s').

(** ** mergeSchemas over the store

    [rootSchema] is a pointer: its fields are assigned in place, and
    [rootSchema.Properties[key] = ...] updates the map that the field refers
    to. *)
Definition mergeSchemas (rootSchema : option loc) (schemas : list Schema)
  : M loc :=
  rootSchema ←
    match rootSchema with
    | None => alloc (CSchema emptySchema)
    | Some l => mret l
    end;
  root ← readSchema rootSchema;
  match Properties root with
  | None =>
      properties ← alloc (CProps ∅);
      writeSchema rootSchema (setProperties (Some properties) root)
  | Some _ => mret tt
  end;;
  root ← readSchema rootSchema;
  writeSchema rootSchema (setCompositions None None None root);;
  forEach schemas (λ schema,
    match Properties schema with
    | None => mret tt
    | Some schemaProperties =>
        branch ← readProps schemaProperties;
        forEach (keys branch) (λ key,
          branch ← readProps schemaProperties;
          match branch !! key with
          | None => mret tt
          | Some prop =>
              root ← readSchema rootSchema;
              match Properties root with
              | None => panic "assignment to entry in nil map"
              | Some rootProperties =>
                  m ← readProps rootProperties;
                  writeProps rootProperties (<[key := prop]> m)
              end
          end)
    end;;
    root ← readSchema rootSchema;
    writeSchema rootSchema
      (setCompositions (OneOf schema) (AllOf schema) (AnyOf schema) root));;
  mret rootSchema.

(** ** The resolver over the store *)

(** [prop.Extensions[ExamplesKey]] *)
Definition examplesOf (prop : Schema) : M value :=
  match Extensions prop with
  | None => mret VNil
  | Some l => m ← readVals l; mret (default VNil (m !! ExamplesKey))
  end.

Definition notNil (v : value) : bool :=
  match v with VNil => false | _ => true end.

Section Resolver.

Variable parseProperties : option loc → M (option loc).
Variable fuel : nat.

Definition parseExamples (key : string) (prop : loc) (result : loc) : M unit :=
  p ← readSchema prop;
  ext ← examplesOf p;
  example ←
    match ext with
    | VSlice conv =>
        match conv with
        | first :: _ => mret first
        | [] => panic "index out of range [0] with length 0"
        end
    | VMap conv => mret (VMap conv)
    | _ => mret VNil
    end;
  if notNil example then
    if Contains (Type_ p) ObjectKey then
      t ← parseProperties (Some prop);
      match t with
      | Some t => Merge fuel t example;; setIndex result key (VMap t)
      | None => panic "nil map"
      end
    else setIndex result key example
  else mret tt.

Definition parseEnum (key : string) (prop : loc) (result : loc) : M unit :=
  p ← readSchema prop;
  match Enum p with
  | first :: _ =>
      setIndex result key (if notNil (Default p) then Default p else first)
  | [] => panic "index out of range [0] with length 0"
  end.

Definition parseObject (key : string) (prop : loc) (result : loc) : M unit :=
  t ← parseProperties (Some prop);
  match t with
  | Some t => setIndex result key (VMap t)
  | None => panic "nil map"
  end.

Definition parseArray (key : string) (prop : loc) (result : loc) : M unit :=
  p ← readSchema prop;
  match Items p with
  | Some (Some items, _) =>
      itemSchema ← readSchema items;
      if notNil (Default itemSchema)
      then setIndex result key (Default itemSchema)
      else
        t ← parseProperties (Some items);
        match t with
        | Some t => setIndex result key (VMap t)
        | None => mret tt
        end
  | _ => panic "invalid memory address or nil pointer dereference"
  end.

Definition parseOneOf (key : string) (prop : loc) (result : loc) : M unit :=
  downwardSchema ← deepcopy_Copy fuel prop;
  p ← readSchema prop;
  mergedSchema ← mergeSchemas (Some downwardSchema) (default [] (OneOf p));
  t ← parseProperties (Some mergedSchema);
  match t with
  | Some t => setIndex result key (VMap t)
  | None => panic "nil map"
  end.

Definition parseAnyOf (key : string) (prop : loc) (result : loc) : M unit :=
  downwardSchema ← deepcopy_Copy fuel prop;
  p ← readSchema prop;
  mergedSchema ← mergeSchemas (Some downwardSchema) (default [] (AnyOf p));
  t ← parseProperties (Some mergedSchema);
  match t with
  | Some t => setIndex result key (VMap t)
  | None => panic "nil map"
  end.

Definition hasItemsSchema (prop : Schema) : bool :=
  match Items prop with
  | Some (Some _, _) => true
  | _ => false
  end.

Definition parseProperty (key : string) (prop : loc) (result : loc) : M unit :=
  p ← readSchema prop;
  ext ← examplesOf p;
  if notNil ext then parseExamples key prop result
  else if bool_decide (0 < length (Enum p)) then parseEnum key prop result
  else if Contains (Type_ p) ObjectKey then parseObject key prop result
  else if notNil (Default p) then setIndex result key (Default p)
  else if Contains (Type_ p) ArrayObject && hasItemsSchema p
  then parseArray key prop result
  else if bool_decide (is_Some (AllOf p)) then mret tt
  else if bool_decide (is_Some (OneOf p)) then parseOneOf key prop result
  else if bool_decide (is_Some (AnyOf p)) then parseAnyOf key prop result
  else mret tt.

End Resolver.

(** [parseProperties]: [result := make(map[string]any)], then one call of
    [parseProperty] per key, on a pointer to a copy of the property
    ([ptr.To(tempNode.Properties[key])]: the struct is copied, the maps it
    refers to are not). *)
Fixpoint parseProperties (fuel : nat) (tempNode : option loc) : M (option loc) :=
  match fuel with
  | O => diverge
  | S fuel =>
      match tempNode with
      | None => mret None
      | Some tempNode =>
          result ← alloc (CVals ∅);
          node ← readSchema tempNode;
          match Properties node with
          | None => mret tt
          | Some properties =>
              m ← readProps properties;
              forEach (keys m) (λ key,
                m ← readProps properties;
                match m !! key with
                | None => mret tt
                | Some prop =>
                    propPtr ← alloc (CSchema prop);
                    parseProperty (parseProperties fuel) fuel key propPtr result
                end)
          end;;
          mret (Some result)
      end
  end.

(** A computation that only allocates: the store it returns extends the
    store it was given. *)
Definition allocates {A} (x : M A) : Prop :=
  ∀ σ a σ', x σ = Ok (a, σ') → σ `prefix_of` σ'.

(** What [mergeSchemas] needs of its root to leave the first [n] locations
    alone: the root and its property map lie above them. *)
Definition rootAbove (n : nat) (root : loc) (σ : store) : Prop :=
  n ≤ length σ ∧ n ≤ root ∧
  ∃ s pl, σ !! root = Some (CSchema s) ∧ Properties s = Some pl ∧ n ≤ pl.

(** ** A schema with nested examples

    An object [outer] with the example [{p: {y: {z: 1}}}] and one property
    [p]; [p] is an object with the example [{y: {a: 1}}]:
<<
      x-examples: {p: {y: {z: 1}}}
      type: object
      properties:
        p:
          type: object
          x-examples: {y: {a: 1}}
>>
    Locations 0 to 8 hold the schema, location 9 the result map of the
    caller. *)

Definition examplesInner : Schema :=
  mkSchema ["object"] None None [] VNil (Some 2) None None None.

Definition examplesOuter : Schema :=
  mkSchema ["object"] (Some 7) None [] VNil (Some 6) None None None.

Definition nestedExamples : store :=
  [ CVals {[ "a" := VNum 1 ]};
    CVals {[ "y" := VMap 0 ]};
    CVals {[ ExamplesKey := VMap 1 ]};
    CVals {[ "z" := VNum 1 ]};
    CVals {[ "y" := VMap 3 ]};
    CVals {[ "p" := VMap 4 ]};
    CVals {[ ExamplesKey := VMap 5 ]};
    CProps {[ "p" := examplesInner ]};
    CSchema examplesOuter;
    CVals ∅ ].

(** The store after [parseProperty("g", outer, result)]. *)
Definition nestedExamplesAfter : store :=
  [ CVals {[ "a" := VNum 1; "z" := VNum 1 ]};
    CVals {[ "y" := VMap 0 ]};
    CVals {[ ExamplesKey := VMap 1 ]};
    CVals {[ "z" := VNum 1 ]};
    CVals {[ "y" := VMap 3 ]};
    CVals {[ "p" := VMap 4 ]};
    CVals {[ ExamplesKey := VMap 5 ]};
    CProps {[ "p" := examplesInner ]};
    CSchema examplesOuter;
    CVals {[ "g" := VMap 10 ]};
    CVals {[ "p" := VMap 12 ]};
    CSchema examplesInner;
    CVals {[ "y" := VMap 0 ]} ].

(** ** A schema with [oneOf]

    The schema of the [oneOf] example: two branches, [{a: 1}] and
    [{a: 2, b: 3}] by their defaults.  Locations 0 to 2 hold the schema,
    location 3 the result map of the caller. *)

Definition leaf (d : value) : Schema :=
  mkSchema [] None None [] d None None None None.

Definition oneOfBranches : Schema :=
  mkSchema [] None None [] VNil None
           (Some [setProperties (Some 0) emptySchema;
                  setProperties (Some 1) emptySchema])
           None None.

Definition oneOfStore : store :=
  [ CProps {[ "a" := leaf (VNum 1) ]};
    CProps {[ "a" := leaf (VNum 2); "b" := leaf (VNum 3) ]};
    CSchema oneOfBranches;
    CVals ∅ ].

(** ** The loops of [mergeSchemas], seen from the store *)

(** The property map of a branch, as the store has it. *)
Definition propsAt (σ : store) (schema : Schema) : gmap string Schema :=
  match Properties schema with
  | Some l =>
      match σ !! l with
      | Some (CProps m) => m
      | _ => ∅
      end
  | None => ∅
  end.

(** [rootSchema.Properties[key] = schema.Properties[key]] for one key. *)
Definition assignProperty (branch : gmap string Schema)
           (acc : gmap string Schema) (key : string) : gmap string Schema :=
  match branch !! key with
  | Some prop => <[key := prop]> acc
  | None => acc
  end.

(** The store [σ] while [mergeSchemas] runs on the store [σ0]: the property
    map [pl] of the root holds [acc], the root still refers to [pl], and
    every other object is as it was. *)
Definition mergedInto (σ0 : store) (root pl : loc) (acc : gmap string Schema)
           (σ : store) : Prop :=
  σ !! pl = Some (CProps acc) ∧ length σ = length σ0 ∧
  (∃ s, σ !! root = Some (CSchema s) ∧ Properties s = Some pl) ∧
  ∀ l, l ≠ pl → l ≠ root → σ !! l = σ0 !! l.

(** A root that shares its property map with nobody, and one branch. *)
Definition inPlaceStore : store :=
  [ CProps {[ "a" := leaf (VNum 1) ]};
    CProps {[ "a" := leaf (VNum 2); "b" := leaf (VNum 3) ]};
    CSchema (setProperties (Some 0) emptySchema) ].

(** The store of the [oneOf] example after [deepcopy.Copy] of the schema
    at location 2 (the copy is location 6), and after the merge of the
    branches into the copy. *)
Definition oneOfCopied : store :=
  Eval vm_compute in
    match deepcopy_Copy 10 2 oneOfStore with
    | Ok (_, σ) => σ
    | _ => []
    end.

Definition oneOfMerged : store :=
  Eval vm_compute in
    match mergeSchemas (Some 6) (default [] (OneOf oneOfBranches)) oneOfCopied with
    | Ok (_, σ) => σ
    | _ => []
    end.

End Store.

(** * The two semantics side by side

    A schema tree is laid out in a store, every map at a location of its
    own ([layout]); the values that a run over the store leaves are read
    back as trees ([readBack]). *)

Fixpoint layoutValue (v : value) : Store.M Store.value :=
  match v with
  | VNil => mret Store.VNil
  | VBool b => mret (Store.VBool b)
  | VNum z => mret (Store.VNum z)
  | VStr s => mret (Store.VStr s)
  | VSlice l =>
      l' ← foldr (λ x acc, x' ← layoutValue x; xs ← acc; mret (x' :: xs))
                 (mret []) l;
      mret (Store.VSlice l')
  | VMap m =>
      m' ← map_fold (λ key x acc,
                       x' ← layoutValue x; m' ← acc; mret (<[key := x']> m'))
                    (mret ∅) m;
      l ← Store.alloc (Store.CVals m');
      mret (Store.VMap l)
  end.

Definition layoutValues (m : gmap string value) : Store.M (option nat) :=
  v ← layoutValue (VMap m);
  match v with
  | Store.VMap l => mret (Some l)
  | _ => mret None
  end.

Fixpoint layout (s : Schema) : Store.M Store.Schema :=
  match s with
  | mkSchema type properties items enum default extensions oneOf allOf anyOf =>
      let layoutList (l : option (list Schema)) : Store.M (option (list Store.Schema)) :=
        match l with
        | None => mret None
        | Some l =>
            l' ← foldr (λ x acc, x' ← layout x; xs ← acc; mret (x' :: xs))
                       (mret []) l;
            mret (Some l')
        end in
      properties ←
        match properties with
        | None => mret None
        | Some m =>
            m' ← map_fold (λ key p acc,
                             p' ← layout p; m' ← acc; mret (<[key := p']> m'))
                          (mret ∅) m;
            l ← Store.alloc (Store.CProps m');
            mret (Some l)
        end;
      items ←
        match items with
        | None => mret None
        | Some (schema, schemas) =>
            schema' ←
              match schema with
              | None => mret None
              | Some schema =>
                  schema' ← layout schema;
                  l ← Store.alloc (Store.CSchema schema');
                  mret (Some l)
              end;
            schemas' ← foldr (λ x acc, x' ← layout x; xs ← acc; mret (x' :: xs))
                             (mret []) schemas;
            mret (Some (schema', schemas'))
        end;
      enum ← foldr (λ x acc, x' ← layoutValue x; xs ← acc; mret (x' :: xs))
                   (mret []) enum;
      default ← layoutValue default;
      extensions ← layoutValues extensions;
      oneOf ← layoutList oneOf;
      allOf ← layoutList allOf;
      anyOf ← layoutList anyOf;
      mret (Store.mkSchema type properties items enum default extensions
                           oneOf allOf anyOf)
  end.

Fixpoint readBack (fuel : nat) (σ : list Store.cell) (v : Store.value)
  : option value :=
  match fuel with
  | O => None
  | S fuel =>
      match v with
      | Store.VNil => Some VNil
      | Store.VBool b => Some (VBool b)
      | Store.VNum z => Some (VNum z)
      | Store.VStr s => Some (VStr s)
      | Store.VSlice l => VSlice <$> mapM (readBack fuel σ) l
      | Store.VMap l =>
          match σ !! l with
          | Some (Store.CVals m) =>
              entries ← mapM (λ kv, pair kv.1 <$> readBack fuel σ kv.2)
                             (map_to_list m);
              Some (VMap (list_to_map entries))
          | _ => None
          end
      end
  end.

(** [Store.parseProperty] on the layout of [prop], from the empty store,
    with the result map read back. *)
Definition runOnStore (fuel : nat) (key : string) (prop : Schema)
  : outcome (option value) :=
  match (s ← layout prop;
         propPtr ← Store.alloc (Store.CSchema s);
         result ← Store.alloc (Store.CVals ∅);
         Store.parseProperty (Store.parseProperties fuel) fuel key propPtr result;;
         mret result) [] with
  | Ok (result, σ) => Ok (readBack fuel σ (Store.VMap result))
  | Err e => Err e
  | Panic msg => Panic msg
  | Diverge => Diverge
  end.

(** * Facts

    ** The merge of values *)

Lemma deepMerge_lookup (dst src : gmap string value) (key : string) :
  deepMerge dst src !! key =
    match src !! key with
    | Some srcElem => Some (mergeElement (dst !! key) srcElem)
    | None => dst !! key
    end.
Proof.
  unfold deepMerge. revert key.
  apply (map_fold_weak_ind
           (λ r (m : gmap string value), ∀ key,
              r !! key = match m !! key with
                         | Some srcElem => Some (mergeElement (dst !! key) srcElem)
                         | None => dst !! key
                         end)).
  - intros key. by rewrite lookup_empty.
  - intros i x m r Hi IH key.
    destruct (decide (i = key)) as [->|Hne].
    + rewrite !lookup_insert_eq. f_equal. f_equal.
      specialize (IH key). by rewrite Hi in IH.
    + rewrite !lookup_insert_ne by done. apply IH.
Qed.

Lemma deepMerge_empty_src (dst : gmap string value) : deepMerge dst ∅ = dst.
Proof. apply map_eq. intros k. by rewrite deepMerge_lookup, lookup_empty. Qed.

Lemma deepMerge_eq_empty (dst src : gmap string value) :
  deepMerge dst src = ∅ → src = ∅.
Proof.
  intros H. apply map_eq. intros k. rewrite lookup_empty.
  assert (Hk : deepMerge dst src !! k = None) by (by rewrite H, lookup_empty).
  rewrite deepMerge_lookup in Hk. by destruct (src !! k).
Qed.

(** [mergeElement] in closed form: two maps are merged, anything else is
    replaced by the source entry. *)
Lemma mergeElement_eq (dstElement : option value) (srcElement : value) :
  mergeElement dstElement srcElement =
    match dstElement, srcElement with
    | Some (VMap dstMap), VMap srcMap => VMap (deepMerge dstMap srcMap)
    | _, _ => srcElement
    end.
Proof.
  destruct srcElement as [| | | | |srcMap]; simpl;
    try by destruct dstElement as [[]|].
  destruct dstElement as [[| | | | |dstMap]|]; simpl;
    try done; try (by rewrite andb_false_r).
  fold (deepMerge dstMap srcMap).
  case_bool_decide as He; simpl; [|done].
  rewrite He. f_equal. by apply deepMerge_eq_empty in He.
Qed.

(** ** The merge of schemas *)

Lemma overlay_union (base m : gmap string Schema) :
  map_fold (λ key prop acc, <[key := prop]> acc) base m = m ∪ base.
Proof.
  apply (map_fold_weak_ind (λ r (m : gmap string Schema), r = m ∪ base)).
  - by rewrite (left_id_L ∅ (∪)).
  - intros i x m' r _ ->. by rewrite insert_union_l.
Qed.

Lemma mergeBranch_props (rootSchema schema : Schema) :
  props (mergeBranch rootSchema schema) = props schema ∪ props rootSchema.
Proof. unfold mergeBranch. cbn. apply overlay_union. Qed.

Lemma mergeSchemas_snoc (rootSchema : option Schema) (schemas : list Schema)
      (schema : Schema) :
  mergeSchemas rootSchema (schemas ++ [schema]) =
  mergeBranch (mergeSchemas rootSchema schemas) schema.
Proof. unfold mergeSchemas. by rewrite foldl_app. Qed.

Lemma mergeSchemas_literals (rootSchema : option Schema) (schemas : list Schema) :
  sameLiterals (mergeSchemas rootSchema schemas) (default emptySchema rootSchema).
Proof.
  induction schemas as [|schema schemas IH] using rev_ind.
  - unfold mergeSchemas. cbn. by destruct (Properties _).
  - rewrite mergeSchemas_snoc. exact IH.
Qed.

Lemma mergeSchemas_Properties (rootSchema : option Schema) (schemas : list Schema) :
  Properties (mergeSchemas rootSchema schemas)
  = Some (props (mergeSchemas rootSchema schemas)).
Proof.
  induction schemas as [|schema schemas IH] using rev_ind.
  - unfold mergeSchemas, props. cbn.
    by destruct (Properties (default emptySchema rootSchema)) eqn:E; cbn; rewrite ?E.
  - by rewrite mergeSchemas_snoc.
Qed.

Lemma mergeSchemas_props (rootSchema : option Schema) (schemas : list Schema)
      (key : string) :
  props (mergeSchemas rootSchema schemas) !! key =
    match last (omap (λ schema, props schema !! key) schemas) with
    | Some prop => Some prop
    | None => props (default emptySchema rootSchema) !! key
    end.
Proof.
  induction schemas as [|schema schemas IH] using rev_ind.
  - unfold mergeSchemas, props. cbn.
    by destruct (Properties (default emptySchema rootSchema)) eqn:E; cbn; rewrite ?E.
  - rewrite mergeSchemas_snoc, mergeBranch_props, omap_app, lookup_union. cbn.
    destruct (props schema !! key) as [prop|] eqn:Hk.
    + rewrite last_snoc. by rewrite union_Some_l.
    + rewrite (right_id_L [] (++)), (left_id_L None union). exact IH.
Qed.

Lemma mergeSchemas_compositions (rootSchema : option Schema) (schemas : list Schema) :
  OneOf (mergeSchemas rootSchema schemas) = last schemas ≫= OneOf ∧
  AllOf (mergeSchemas rootSchema schemas) = last schemas ≫= AllOf ∧
  AnyOf (mergeSchemas rootSchema schemas) = last schemas ≫= AnyOf.
Proof.
  destruct schemas as [|schema schemas _] using rev_ind.
  - unfold mergeSchemas. cbn.
    by destruct (Properties (default emptySchema rootSchema)).
  - by rewrite mergeSchemas_snoc, last_snoc.
Qed.

Lemma maxOf_elem {A} (f : A → nat) (l : list A) (x : A) :
  x ∈ l → f x ≤ maxOf f l.
Proof.
  induction 1 as [x l|x y l _ IH]; cbn; [lia|].
  fold (maxOf f l). lia.
Qed.

Lemma maxOf_bound {A} (f : A → nat) (l : list A) (b : nat) :
  (∀ x, x ∈ l → f x ≤ b) → maxOf f l ≤ b.
Proof.
  induction l as [|x l IH]; intros H; cbn; [lia|]. fold (maxOf f l).
  apply Nat.max_lub.
  - apply H. by left.
  - apply IH. intros y Hy. apply H. by right.
Qed.

Lemma maxOfMap_elem {A} (f : A → nat) (m : gmap string A) (k : string) (x : A) :
  m !! k = Some x → f x ≤ maxOfMap f m.
Proof.
  unfold maxOfMap. revert k x.
  apply (map_fold_weak_ind
           (λ r (m : gmap string A), ∀ k x, m !! k = Some x → f x ≤ r)).
  - intros k x. by rewrite lookup_empty.
  - intros i y m' r _ IH k x Hk.
    destruct (decide (i = k)) as [->|Hne].
    + rewrite lookup_insert_eq in Hk. injection Hk as ->. lia.
    + rewrite lookup_insert_ne in Hk by done. specialize (IH k x Hk). lia.
Qed.

Lemma maxOfMap_bound {A} (f : A → nat) (m : gmap string A) (b : nat) :
  (∀ k x, m !! k = Some x → f x ≤ b) → maxOfMap f m ≤ b.
Proof.
  unfold maxOfMap.
  apply (map_fold_weak_ind
           (λ r (m : gmap string A),
              (∀ k x, m !! k = Some x → f x ≤ b) → r ≤ b)).
  - lia.
  - intros i y m' r Hi IH H. apply Nat.max_lub.
    + apply (H i). by rewrite lookup_insert_eq.
    + apply IH. intros k x Hk. apply (H k).
      rewrite lookup_insert_ne; [done|]. intros ->. by rewrite Hi in Hk.
Qed.

Lemma depth_eq (s : Schema) :
  depth s =
    S (Nat.max
         (Nat.max
            (Nat.max
               (maxOfMap depth (props s))
               match Items s with Some (Some schema, _) => depth schema | _ => 0 end)
            (maxOf depth (default [] (OneOf s))))
         (maxOf depth (default [] (AnyOf s)))).
Proof.
  destruct s as [t p i e d x o a y]. unfold props. cbn.
  by destruct p, o, y.
Qed.

Lemma depth_property (s p : Schema) (key : string) :
  props s !! key = Some p → depth p < depth s.
Proof.
  intros H. rewrite (depth_eq s).
  pose proof (maxOfMap_elem depth _ _ _ H). lia.
Qed.

Lemma depth_items (s items : Schema) (schemas : list Schema) :
  Items s = Some (Some items, schemas) → depth items < depth s.
Proof. intros H. rewrite (depth_eq s), H. lia. Qed.

Lemma depth_oneOf (s b : Schema) : b ∈ default [] (OneOf s) → depth b < depth s.
Proof.
  intros H. rewrite (depth_eq s).
  pose proof (maxOf_elem depth _ _ H). lia.
Qed.

Lemma depth_anyOf (s b : Schema) : b ∈ default [] (AnyOf s) → depth b < depth s.
Proof.
  intros H. rewrite (depth_eq s).
  pose proof (maxOf_elem depth _ _ H). lia.
Qed.

Lemma depth_mergeSchemas (prop : Schema) (branches : list Schema) :
  (∀ b, b ∈ branches → depth b < depth prop) →
  depth (mergeSchemas (Some prop) branches) ≤ depth prop.
Proof.
  intros Hb. set (merged := mergeSchemas (Some prop) branches).
  destruct (mergeSchemas_literals (Some prop) branches) as (_ & Hitems & _).
  destruct (mergeSchemas_compositions (Some prop) branches) as (Hone & _ & Hany).
  fold merged in Hitems, Hone, Hany. cbn in Hitems.
  assert (Hlast : ∀ b, last branches = Some b → depth b < depth prop).
  { intros b Hl. apply Hb. rewrite last_Some in Hl.
    destruct Hl as [l' ->]. apply elem_of_app. right. by left. }
  rewrite (depth_eq merged), Hitems, Hone, Hany.
  destruct (depth prop) as [|d] eqn:Hd; [by rewrite depth_eq in Hd|].
  apply le_n_S. repeat apply Nat.max_lub.
  - apply maxOfMap_bound. intros key p Hp.
    unfold merged in Hp. rewrite mergeSchemas_props in Hp. cbn in Hp.
    destruct (last (omap _ branches)) as [q|] eqn:Hq.
    + injection Hp as ->. apply last_Some in Hq as [l' Hq].
      assert (Hin : p ∈ omap (λ schema, props schema !! key) branches)
        by (rewrite Hq; apply elem_of_app; right; by left).
      apply list_elem_of_omap in Hin as (b & Hin & Hk).
      pose proof (depth_property _ _ _ Hk). specialize (Hb _ Hin). lia.
    + pose proof (depth_property _ _ _ Hp). lia.
  - destruct (Items prop) as [[[items|] schemas]|] eqn:Hi; try lia.
    pose proof (depth_items _ _ _ Hi). lia.
  - destruct (last branches) as [b|] eqn:Hl; cbn; [|lia].
    apply maxOf_bound. intros x Hx.
    pose proof (depth_oneOf _ _ Hx). specialize (Hlast _ eq_refl). lia.
  - destruct (last branches) as [b|] eqn:Hl; cbn; [|lia].
    apply maxOf_bound. intros x Hx.
    pose proof (depth_anyOf _ _ Hx). specialize (Hlast _ eq_refl). lia.
Qed.

(** [parseProperty] calls [parseProperties] on nodes no deeper than the
    property only. *)
Lemma parseProperty_ext
      (rec1 rec2 : option Schema → outcome (option (gmap string value)))
      (key : string) (prop : Schema) (result : gmap string value) :
  (∀ x, depthOpt x ≤ depth prop → rec1 x = rec2 x) →
  parseProperty rec1 key prop result = parseProperty rec2 key prop result.
Proof.
  intros Hrec.
  assert (Hself : rec1 (Some prop) = rec2 (Some prop)) by (by apply Hrec).
  unfold parseProperty, parseExamples, parseObject, parseArray, parseOneOf,
    parseAnyOf, deepcopy_Copy.
  rewrite Hself.
  destruct (Items prop) as [[[items|] schemas]|] eqn:Hi.
  - rewrite (Hrec (Some items)) by (pose proof (depth_items _ _ _ Hi); cbn; lia).
    rewrite (Hrec (Some (mergeSchemas (Some prop) (default [] (OneOf prop)))))
      by (apply depth_mergeSchemas, depth_oneOf).
    by rewrite (Hrec (Some (mergeSchemas (Some prop) (default [] (AnyOf prop)))))
      by (apply depth_mergeSchemas, depth_anyOf).
  - rewrite (Hrec (Some (mergeSchemas (Some prop) (default [] (OneOf prop)))))
      by (apply depth_mergeSchemas, depth_oneOf).
    by rewrite (Hrec (Some (mergeSchemas (Some prop) (default [] (AnyOf prop)))))
      by (apply depth_mergeSchemas, depth_anyOf).
  - rewrite (Hrec (Some (mergeSchemas (Some prop) (default [] (OneOf prop)))))
      by (apply depth_mergeSchemas, depth_oneOf).
    by rewrite (Hrec (Some (mergeSchemas (Some prop) (default [] (AnyOf prop)))))
      by (apply depth_mergeSchemas, depth_anyOf).
Qed.

Lemma map_fold_ext_elem {A B} (f g : string → A → B → B) (b : B)
      (m : gmap string A) :
  (∀ k x acc, m !! k = Some x → f k x acc = g k x acc) →
  map_fold f b m = map_fold g b m.
Proof.
  intros H. rewrite !map_fold_foldr.
  assert (Hl : ∀ k x, (k, x) ∈ map_to_list m → m !! k = Some x)
    by (intros k x; apply elem_of_map_to_list).
  induction (map_to_list m) as [|[k x] l IH]; [done|]. cbn.
  rewrite IH by (intros k' x' Hin; apply Hl; by right).
  apply H, Hl. by left.
Qed.

Lemma parsePropertiesLoop_ext
      (rec1 rec2 : option Schema → outcome (option (gmap string value)))
      (node : Schema) :
  (∀ x, depthOpt x < depth node → rec1 x = rec2 x) →
  parsePropertiesLoop rec1 node = parsePropertiesLoop rec2 node.
Proof.
  intros Hrec. apply map_fold_ext_elem. intros key prop acc Hk.
  destruct acc; cbn; try done.
  apply parseProperty_ext. intros x Hx. apply Hrec.
  pose proof (depth_property _ _ _ Hk). lia.
Qed.

Lemma parseProperties_S (fuel : nat) (node : Schema) :
  parseProperties (S fuel) (Some node) =
  (result ← parsePropertiesLoop (parseProperties fuel) node; Ok (Some result)).
Proof. done. Qed.

(** Any two budgets above the depth of the node give the same outcome. *)
Lemma parseProperties_stable (n m : nat) (x : option Schema) :
  depthOpt x < n → depthOpt x < m → parseProperties n x = parseProperties m x.
Proof.
  revert m x. induction n as [|n IH]; intros m x Hn Hm; [lia|].
  destruct m as [|m]; [lia|].
  destruct x as [node|]; [|done].
  rewrite !parseProperties_S.
  rewrite (parsePropertiesLoop_ext (parseProperties n) (parseProperties m)); [done|].
  intros y Hy. cbn in Hn, Hm. apply IH; lia.
Qed.

Lemma Do_enough (n : nat) (x : option Schema) :
  depthOpt x < n → parseProperties n x = Do x.
Proof. intros H. unfold Do. apply parseProperties_stable; lia. Qed.

(** The equation of [parseProperties], free of the budget. *)
Lemma Do_nil : Do None = Ok None.
Proof. done. Qed.

Lemma Do_unfold (node : Schema) :
  Do (Some node) = (result ← parsePropertiesLoop Do node; Ok (Some result)).
Proof.
  unfold Do at 1. rewrite parseProperties_S.
  rewrite (parsePropertiesLoop_ext _ Do); [done|].
  intros y Hy. by apply Do_enough.
Qed.

(** ** Termination *)

Lemma Merge_terminates (dst : gmap string value) (src : value) :
  Merge dst src ≠ Diverge.
Proof. by destruct src. Qed.

Lemma bind_terminates {A B} (x : outcome A) (f : A → outcome B) :
  x ≠ Diverge → (∀ a, f a ≠ Diverge) → (x ≫= f) ≠ Diverge.
Proof. intros Hx Hf. destruct x; cbn; by try apply Hf. Qed.

Ltac terminates_step :=
  match goal with
  | |- (_ ≫= _) ≠ Diverge => apply bind_terminates; [|intros ?]
  | |- Merge _ _ ≠ Diverge => apply Merge_terminates
  | |- Ok _ ≠ Diverge => discriminate
  | |- Panic _ ≠ Diverge => discriminate
  | |- Err _ ≠ Diverge => discriminate
  | |- context [match ?x with _ => _ end] => destruct x eqn:?
  end.

Lemma parseProperty_terminates
      (rec : option Schema → outcome (option (gmap string value)))
      (key : string) (prop : Schema) (result : gmap string value) :
  (∀ x, depthOpt x ≤ depth prop → rec x ≠ Diverge) →
  parseProperty rec key prop result ≠ Diverge.
Proof.
  intros Hrec.
  pose proof (Hrec (Some prop) (le_n _)) as Hself.
  pose proof (Hrec (Some (mergeSchemas (Some prop) (default [] (OneOf prop))))
                   (depth_mergeSchemas _ _ (depth_oneOf prop))) as Hone.
  pose proof (Hrec (Some (mergeSchemas (Some prop) (default [] (AnyOf prop))))
                   (depth_mergeSchemas _ _ (depth_anyOf prop))) as Hany.
  assert (Hitems : ∀ items schemas,
             Items prop = Some (Some items, schemas) → rec (Some items) ≠ Diverge).
  { intros items schemas Hi. apply Hrec.
    pose proof (depth_items _ _ _ Hi). cbn. lia. }
  unfold parseProperty, parseExamples, parseEnum, parseObject, parseArray,
    parseOneOf, parseAnyOf, deepcopy_Copy.
  repeat terminates_step; eauto.
Qed.

Lemma parsePropertiesLoop_terminates
      (rec : option Schema → outcome (option (gmap string value)))
      (node : Schema) :
  (∀ x, depthOpt x < depth node → rec x ≠ Diverge) →
  parsePropertiesLoop rec node ≠ Diverge.
Proof.
  intros Hrec. unfold parsePropertiesLoop.
  apply (map_fold_weak_ind
           (λ (r : outcome (gmap string value)) (m : gmap string Schema),
              m ⊆ props node → r ≠ Diverge)); [done| |done].
  intros i x m r Hi IH Hsub.
  assert (Hx : props node !! i = Some x)
    by (eapply lookup_weaken; [apply lookup_insert_eq|done]).
  assert (Hr : r ≠ Diverge).
  { apply IH. etrans; [|exact Hsub]. by apply insert_subseteq. }
  destruct r as [result| | |]; cbn; try done.
  apply parseProperty_terminates. intros y Hy. apply Hrec.
  pose proof (depth_property _ _ _ Hx). lia.
Qed.

Lemma parseProperties_terminates (n : nat) (x : option Schema) :
  depthOpt x < n → parseProperties n x ≠ Diverge.
Proof.
  revert x. induction n as [|n IH]; intros x Hn; [lia|].
  destruct x as [node|]; [|done].
  rewrite parseProperties_S.
  apply bind_terminates; [|done].
  apply parsePropertiesLoop_terminates.
  intros y Hy. apply IH. cbn in Hn. lia.
Qed.

(** The generator always comes to an end: it returns, fails or panics. *)
Lemma Do_terminates (rootSchema : option Schema) : Do rootSchema ≠ Diverge.
Proof. apply parseProperties_terminates. lia. Qed.

Lemma parsePropertiesLoop_Do_terminates (node : Schema) :
  parsePropertiesLoop Do node ≠ Diverge.
Proof.
  apply parsePropertiesLoop_terminates. intros x _. apply Do_terminates.
Qed.

Lemma parseProperty_Do_terminates (key : string) (prop : Schema)
      (result : gmap string value) :
  parseProperty Do key prop result ≠ Diverge.
Proof.
  apply parseProperty_terminates. intros x _. apply Do_terminates.
Qed.

Ltac outcome_cases :=
  unfold mbind, outcome_bind, fmap, outcome_fmap;
  repeat match goal with
         | |- context [match ?x with _ => _ end] => destruct x eqn:?
         end.

Lemma parseProperty_resolve
      (rec : option Schema → outcome (option (gmap string value)))
      (key : string) (prop : Schema) (result : gmap string value) :
  parseProperty rec key prop result =
  (produced ← resolve rec key prop; Ok (assign key produced result)).
Proof.
  unfold resolve, parseProperty, parseExamples, parseEnum, parseObject,
    parseArray, parseOneOf, parseAnyOf, deepcopy_Copy, assign.
  outcome_cases; simplify_eq/=;
    rewrite ?lookup_insert_eq, ?lookup_empty in *; by simplify_eq.
Qed.

Lemma parsePropertiesLoop_lookup
      (rec : option Schema → outcome (option (gmap string value)))
      (node : Schema) (out : gmap string value) (key : string) :
  parsePropertiesLoop rec node = Ok out →
  out !! key =
    match props node !! key with
    | Some prop =>
        match resolve rec key prop with
        | Ok produced => produced
        | _ => None
        end
    | None => None
    end.
Proof.
  unfold parsePropertiesLoop. revert out key.
  apply (map_fold_weak_ind
           (λ (r : outcome (gmap string value)) (m : gmap string Schema),
              ∀ out key, r = Ok out →
                out !! key =
                  match m !! key with
                  | Some prop =>
                      match resolve rec key prop with
                      | Ok produced => produced
                      | _ => None
                      end
                  | None => None
                  end)).
  - intros out key [= <-]. by rewrite !lookup_empty.
  - intros i x m r Hi IH out key Hout.
    destruct r as [result| | |]; cbn in Hout; try done.
    rewrite parseProperty_resolve in Hout.
    destruct (resolve rec i x) as [produced| | |] eqn:Hres; cbn in Hout; try done.
    injection Hout as <-.
    destruct (decide (i = key)) as [->|Hne].
    + rewrite lookup_insert_eq, Hres.
      specialize (IH result key eq_refl). rewrite Hi in IH.
      destruct produced; cbn; [by rewrite lookup_insert_eq|done].
    + rewrite lookup_insert_ne by done. rewrite <- (IH result key eq_refl).
      destruct produced; cbn; [by rewrite lookup_insert_ne|done].
Qed.

Lemma Do_Some (node : Schema) (t : option (gmap string value)) :
  Do (Some node) = Ok t → ∃ out, t = Some out ∧ parsePropertiesLoop Do node = Ok out.
Proof.
  rewrite Do_unfold. destruct (parsePropertiesLoop Do node); cbn; try done.
  intros [= <-]. eauto.
Qed.

Lemma Do_loop (node : Schema) :
  Do (Some node) = Some <$> parsePropertiesLoop Do node.
Proof. rewrite Do_unfold. by destruct (parsePropertiesLoop Do node). Qed.

Lemma noRule1to5_elim (prop : Schema) :
  noRule1to5 prop = true →
  hasExamples prop = false ∧ hasEnum prop = false ∧ isObject prop = false ∧
  hasDefault prop = false ∧ isArrayWithItems prop = false.
Proof.
  unfold noRule1to5. rewrite !andb_true_iff, !negb_true_iff. tauto.
Qed.

Lemma parseProperty_compositions
      (rec : option Schema → outcome (option (gmap string value)))
      (key : string) (prop : Schema) (result : gmap string value) :
  noRule1to5 prop = true →
  parseProperty rec key prop result =
    match AllOf prop, OneOf prop, AnyOf prop with
    | Some _, _, _ => Ok result
    | None, Some _, _ => parseOneOf rec key prop result
    | None, None, Some _ => parseAnyOf rec key prop result
    | None, None, None => Ok result
    end.
Proof.
  intros (H1 & H2 & H3 & H4 & H5)%noRule1to5_elim.
  unfold hasExamples, hasEnum, isObject, hasDefault, isArrayWithItems in *.
  unfold parseProperty. rewrite H1, H2, H3, H4, H5.
  by destruct (AllOf prop), (OneOf prop), (AnyOf prop).
Qed.

(** ** Claims *)

(** C5. For every base schema and every sequence of branches,
    [mergeSchemas] returns a node whose properties are the properties of
    the base overlaid by the properties of each branch in sequence order:
    a key defined by some branch holds the property of the last branch that
    defines it, as it is in that branch (no merge with the property it
    replaces), and a key defined by no branch holds the property of the
    base.  The [oneOf], [allOf] and [anyOf] fields of the result are those
    of the last branch, and are nil when there is no branch.  The other
    fields are those of the base. *)
Theorem mergeSchemas_last_write_wins (base : Schema) (branches : list Schema) :
  let merged := mergeSchemas (Some base) branches in
  (∀ key,
     props merged !! key =
       match last (omap (λ branch, props branch !! key) branches) with
       | Some prop => Some prop
       | None => props base !! key
       end) ∧
  Properties merged = Some (props merged) ∧
  OneOf merged = last branches ≫= OneOf ∧
  AllOf merged = last branches ≫= AllOf ∧
  AnyOf merged = last branches ≫= AnyOf ∧
  sameLiterals merged base.
Proof.
  cbn. split; [|split; [|split; [|split; [|split]]]].
  - intros key. apply mergeSchemas_props.
  - apply mergeSchemas_Properties.
  - apply mergeSchemas_compositions.
  - apply mergeSchemas_compositions.
  - apply mergeSchemas_compositions.
  - apply (mergeSchemas_literals (Some base)).
Qed.

(** C7. For every property without [x-examples] whose [enum] is not
    empty, [parseProperty] stores the default of the property when it has
    one, and the first element of [enum] otherwise.  The enumeration rule
    is the one that applies: the explicit-default rule is not reached. *)
Theorem parseProperty_enum
        (rec : option Schema → outcome (option (gmap string value)))
        (key : string) (prop : Schema) (result : gmap string value)
        (first : value) (rest : list value) :
  Extensions prop !! ExamplesKey = None →
  Enum prop = first :: rest →
  parseProperty rec key prop result = parseEnum key prop result ∧
  parseProperty rec key prop result =
    Ok (<[key := if notNil (Default prop) then Default prop else first]> result).
Proof.
  intros Hex Henum. unfold parseProperty, parseEnum, index.
  by rewrite Hex, Henum.
Qed.

Lemma parseProperty_enum_witness :
  (Extensions enumWithDefault !! ExamplesKey = None ∧
   Enum enumWithDefault = [VStr "a"; VStr "b"; VStr "c"]) ∧
  parseProperty Do "mode" enumWithDefault ∅ = Ok {[ "mode" := VStr "b" ]} ∧
  parseProperty Do "mode" enumOnly ∅ = Ok {[ "mode" := VStr "a" ]}.
Proof.
  split; [by split|]. split.
  - exact (proj2 (parseProperty_enum Do "mode" enumWithDefault ∅
                    (VStr "a") [VStr "b"; VStr "c"] eq_refl eq_refl)).
  - exact (proj2 (parseProperty_enum Do "mode" enumOnly ∅
                    (VStr "a") [VStr "b"; VStr "c"] eq_refl eq_refl)).
Defined.

(** C10. The code at an empty [x-examples] sequence.  The claim is that
    resolution never faults on a sequence of examples; the code reads
    [conv[0]] without looking at the length, so on the empty sequence the
    call panics, whatever else the property holds. *)
Theorem parseProperty_empty_examples_panics
        (rec : option Schema → outcome (option (gmap string value)))
        (key : string) (prop : Schema) (result : gmap string value) :
  Extensions prop !! ExamplesKey = Some (VSlice []) →
  parseProperty rec key prop result =
    Panic "index out of range [0] with length 0".
Proof.
  intros Hex. unfold parseProperty, parseExamples, index. by rewrite Hex.
Qed.

Lemma parseProperty_empty_examples_panics_witness :
  Extensions emptyExamples !! ExamplesKey = Some (VSlice []) ∧
  parseProperty Do "name" emptyExamples ∅ =
    Panic "index out of range [0] with length 0" ∧
  Do (Some (setProperties (Some {[ "name" := emptyExamples ]}) emptySchema)) =
    Panic "index out of range [0] with length 0".
Proof.
  split; [done|]. split.
  - exact (parseProperty_empty_examples_panics Do "name" emptyExamples ∅ eq_refl).
  - vm_compute. reflexivity.
Defined.

(** A property on which rules 1 to 5 do not match and [allOf] is set
    resolves to no value. *)
Lemma resolve_allOf
      (rec : option Schema → outcome (option (gmap string value)))
      (key : string) (prop : Schema) :
  noRule1to5 prop = true → is_Some (AllOf prop) → resolve rec key prop = Ok None.
Proof.
  intros Hno [l Hall]. unfold resolve.
  rewrite parseProperty_compositions, Hall by done. cbn.
  by rewrite lookup_empty.
Qed.

(** A property on which no rule matches resolves to no value. *)
Lemma resolve_no_match
      (rec : option Schema → outcome (option (gmap string value)))
      (key : string) (prop : Schema) :
  noRule1to5 prop = true → OneOf prop = None → AnyOf prop = None →
  resolve rec key prop = Ok None.
Proof.
  intros Hno Hone Hany. unfold resolve.
  rewrite parseProperty_compositions, Hone, Hany by done.
  destruct (AllOf prop); cbn; by rewrite lookup_empty.
Qed.

(** C9. For every schema and every property of it that resolves to no
    value, the mapping generated for the schema has no entry under the key
    of that property: the key is absent, it is not bound to a nil
    placeholder. *)
Theorem Do_omits_no_value (node : Schema) (out : gmap string value)
        (key : string) (prop : Schema) :
  Do (Some node) = Ok (Some out) →
  props node !! key = Some prop →
  resolve Do key prop = Ok None →
  out !! key = None.
Proof.
  intros Hdo Hprop Hres.
  apply Do_Some in Hdo as (out' & [= <-] & Hloop).
  by rewrite (parsePropertiesLoop_lookup _ _ _ key Hloop), Hprop, Hres.
Qed.

Lemma Do_omits_no_value_witness :
  (Do (Some withAllOfOnly) = Ok (Some {[ "replicas" := VNum 3 ]}) ∧
   props withAllOfOnly !! "extra" = Some allOfOnly ∧
   resolve Do "extra" allOfOnly = Ok None) ∧
  ({[ "replicas" := VNum 3 ]} : gmap string value) !! "extra" = None.
Proof.
  assert (H1 : Do (Some withAllOfOnly) = Ok (Some {[ "replicas" := VNum 3 ]}))
    by (vm_compute; reflexivity).
  assert (H2 : props withAllOfOnly !! "extra" = Some allOfOnly)
    by (vm_compute; reflexivity).
  assert (H3 : resolve Do "extra" allOfOnly = Ok None)
    by (apply resolve_allOf; [vm_compute; reflexivity|by eexists]).
  split; [exact (conj H1 (conj H2 H3))|].
  exact (Do_omits_no_value withAllOfOnly _ "extra" allOfOnly H1 H2 H3).
Defined.

(** C1 (as amended).  For every property on which none of the rules 1 to 5
    matches and whose [oneOf] is set: when [allOf] is nil, [parseProperty]
    stores the mapping obtained by merging the [oneOf] branches over a copy
    of the property, composition fields cleared, and resolving the
    properties of the merged schema; when [allOf] is set, the [allOf] case
    of the [switch] comes first and nothing is stored. *)
Theorem parseProperty_oneOf (key : string) (prop : Schema)
        (result : gmap string value) (branches : list Schema) :
  noRule1to5 prop = true →
  OneOf prop = Some branches →
  parseProperty Do key prop result =
    match AllOf prop with
    | Some _ => Ok result
    | None =>
        t ← parsePropertiesLoop Do
              (mergeSchemas (Some (deepcopy_Copy prop)) branches);
        Ok (<[key := VMap t]> result)
    end.
Proof.
  intros Hno Hone. rewrite parseProperty_compositions, Hone by done.
  destruct (AllOf prop); [done|].
  unfold parseOneOf. rewrite Hone, Do_loop. cbn [default].
  by destruct (parsePropertiesLoop Do _).
Qed.

Lemma parseProperty_oneOf_witness :
  (noRule1to5 oneOfOnly = true ∧ OneOf oneOfOnly = Some [branchA1; branchA2B3]) ∧
  parseProperty Do "backend" oneOfOnly ∅ =
    Ok {[ "backend" := VMap {[ "a" := VNum 2; "b" := VNum 3 ]} ]}.
Proof.
  split; [split; vm_compute; reflexivity|].
  rewrite (parseProperty_oneOf "backend" oneOfOnly ∅ [branchA1; branchA2B3]);
    vm_compute; reflexivity.
Defined.

(** C1 as stated fails: with [allOf] set next to a non-empty [oneOf], and
    no rule from 1 to 5 matching, nothing is stored, whereas the [oneOf]
    merge of the same property would give a mapping. *)
Lemma parseProperty_oneOf_counterexample :
  noRule1to5 oneOfAndAllOf = true ∧
  OneOf oneOfAndAllOf = Some [branchA1; branchA2B3] ∧
  parseOneOf Do "backend" oneOfAndAllOf ∅ =
    Ok {[ "backend" := VMap {[ "a" := VNum 2; "b" := VNum 3 ]} ]} ∧
  parseProperty Do "backend" oneOfAndAllOf ∅ = Ok ∅ ∧
  parseProperty Do "backend" oneOfAndAllOf ∅ ≠
    parseOneOf Do "backend" oneOfAndAllOf ∅.
Proof.
  assert (H1 : parseOneOf Do "backend" oneOfAndAllOf ∅ =
                 Ok {[ "backend" := VMap {[ "a" := VNum 2; "b" := VNum 3 ]} ]})
    by (vm_compute; reflexivity).
  assert (H2 : parseProperty Do "backend" oneOfAndAllOf ∅ = Ok ∅)
    by (vm_compute; reflexivity).
  split; [vm_compute; reflexivity|]. split; [vm_compute; reflexivity|].
  split; [exact H1|]. split; [exact H2|].
  rewrite H1, H2. intros Heq.
  apply (f_equal (λ o : outcome (gmap string value),
                    match o with Ok m => size m | _ => 0 end)) in Heq.
  vm_compute in Heq. discriminate.
Qed.

(** C4 (as amended).  For every property whose types include ["array"],
    whose item schema is set and on which no earlier rule matches: when the
    item schema has a default, [parseProperty] stores that default as it
    is; otherwise it resolves the properties of the item schema and stores
    the resulting mapping, empty or not. *)
Theorem parseProperty_array (key : string) (prop items : Schema)
        (schemas : list Schema) (result : gmap string value) :
  hasExamples prop = false → hasEnum prop = false → isObject prop = false →
  hasDefault prop = false →
  Contains (Type_ prop) ArrayObject = true →
  Items prop = Some (Some items, schemas) →
  parseProperty Do key prop result =
    if notNil (Default items) then Ok (<[key := Default items]> result)
    else t ← parsePropertiesLoop Do items; Ok (<[key := VMap t]> result).
Proof.
  unfold hasExamples, hasEnum, isObject, hasDefault.
  intros H1 H2 H3 H4 Harr Hitems.
  unfold parseProperty, hasItemsSchema, parseArray.
  rewrite H1, H2, H3, H4, Harr, Hitems. cbn [andb].
  destruct (notNil (Default items)); [done|].
  rewrite Do_loop. by destruct (parsePropertiesLoop Do items).
Qed.

Lemma parseProperty_array_witness :
  (hasExamples (arrayOf (setDefault (VStr "x") emptySchema)) = false ∧
   hasEnum (arrayOf (setDefault (VStr "x") emptySchema)) = false ∧
   isObject (arrayOf (setDefault (VStr "x") emptySchema)) = false ∧
   hasDefault (arrayOf (setDefault (VStr "x") emptySchema)) = false ∧
   Contains (Type_ (arrayOf (setDefault (VStr "x") emptySchema))) ArrayObject = true ∧
   Items (arrayOf (setDefault (VStr "x") emptySchema)) =
     Some (Some (setDefault (VStr "x") emptySchema), [])) ∧
  parseProperty Do "hosts" (arrayOf (setDefault (VStr "x") emptySchema)) ∅ =
    Ok {[ "hosts" := VStr "x" ]}.
Proof.
  split; [repeat split; vm_compute; reflexivity|].
  rewrite (parseProperty_array "hosts" _ (setDefault (VStr "x") emptySchema) [] ∅);
    vm_compute; reflexivity.
Defined.

(** C4 as stated fails: an item schema without default and without
    properties resolves to the empty mapping, and the empty mapping is
    stored under the key; the key is not omitted. *)
Lemma parseProperty_array_counterexample :
  parsePropertiesLoop Do emptySchema = Ok ∅ ∧
  parseProperty Do "hosts" (arrayOf emptySchema) ∅ = Ok {[ "hosts" := VMap ∅ ]} ∧
  resolve Do "hosts" (arrayOf emptySchema) ≠ Ok None.
Proof.
  split; [vm_compute; reflexivity|]. split; [vm_compute; reflexivity|].
  assert (H : resolve Do "hosts" (arrayOf emptySchema) = Ok (Some (VMap ∅)))
    by (vm_compute; reflexivity).
  rewrite H. discriminate.
Qed.

(** The merge, key by key: a key that the source lacks keeps the entry of
    the destination; a key of the source whose entry is a mapping, over a
    destination entry that is a mapping too, holds the merge of the two;
    any other key of the source holds the entry of the source. *)
Lemma deepMerge_lookup_eq (dst src : gmap string value) (key : string) :
  deepMerge dst src !! key =
    match src !! key with
    | None => dst !! key
    | Some srcElem =>
        Some match dst !! key, srcElem with
             | Some (VMap dstMap), VMap srcMap => VMap (deepMerge dstMap srcMap)
             | _, _ => srcElem
             end
    end.
Proof.
  rewrite deepMerge_lookup. destruct (src !! key); [|done].
  by rewrite mergeElement_eq.
Qed.

(** C8 (as amended).  For every property whose [x-examples] gives a mapping
    as candidate example (the extension value itself, or the first element
    of a sequence) and whose types include ["object"], [parseProperty]
    resolves the sub-properties of the property into a mapping and stores
    the merge of the example into it.  In the merged mapping a key absent
    from the example keeps its synthesized value; a key of the example
    holds the value of the example, except that where the example and the
    synthesized mapping both hold a mapping under the key, the two mappings
    are merged by the same rule. *)
Theorem parseProperty_examples_object (key : string) (prop : Schema)
        (result : gmap string value) (example : gmap string value) :
  (index (Extensions prop) ExamplesKey = VMap example ∨
   ∃ rest, index (Extensions prop) ExamplesKey = VSlice (VMap example :: rest)) →
  isObject prop = true →
  parseProperty Do key prop result =
    (t ← parsePropertiesLoop Do prop;
     Ok (<[key := VMap (deepMerge t example)]> result)) ∧
  ∀ (t : gmap string value) (k : string),
    deepMerge t example !! k =
      match example !! k with
      | None => t !! k
      | Some exampleValue =>
          Some match t !! k, exampleValue with
               | Some (VMap synthesized), VMap nested =>
                   VMap (deepMerge synthesized nested)
               | _, _ => exampleValue
               end
      end.
Proof.
  intros Hex Hobj. split; [|intros t k; apply deepMerge_lookup_eq].
  unfold isObject in Hobj. unfold parseProperty, parseExamples.
  destruct Hex as [Hex|[rest Hex]]; rewrite Hex; cbn [notNil mbind outcome_bind];
    rewrite Hobj, Do_loop; by destruct (parsePropertiesLoop Do prop).
Qed.

Lemma parseProperty_examples_object_witness :
  (index (Extensions exampleX1) ExamplesKey = VMap {[ "x" := VNum 1 ]} ∧
   isObject exampleX1 = true ∧
   index (Extensions exampleY9) ExamplesKey = VSlice [VMap {[ "y" := VNum 9 ]}] ∧
   isObject exampleY9 = true) ∧
  parseProperty Do "auth" exampleX1 ∅ =
    Ok {[ "auth" := VMap {[ "x" := VNum 1; "y" := VNum 2 ]} ]} ∧
  parseProperty Do "auth" exampleY9 ∅ =
    Ok {[ "auth" := VMap {[ "y" := VNum 9 ]} ]}.
Proof.
  split; [repeat split; vm_compute; reflexivity|]. split.
  - rewrite (proj1 (parseProperty_examples_object "auth" exampleX1 ∅
                      {[ "x" := VNum 1 ]} (or_introl eq_refl) eq_refl)).
    vm_compute. reflexivity.
  - rewrite (proj1 (parseProperty_examples_object "auth" exampleY9 ∅
                      {[ "y" := VNum 9 ]}
                      (or_intror (ex_intro _ [] eq_refl)) eq_refl)).
    vm_compute. reflexivity.
Defined.

(** C8 as stated fails.  Where the example and the synthesized mapping both
    hold a mapping under a key, the value of the example does not replace
    the synthesized value: the synthesized key [b] below survives under
    [y].  And a first element that is not a mapping makes the merge, hence
    the call, fail. *)
Lemma parseProperty_examples_object_counterexample :
  index (Extensions exampleNested) ExamplesKey =
    VMap {[ "y" := VMap {[ "a" := VNum 1 ]} ]} ∧
  isObject exampleNested = true ∧
  parsePropertiesLoop Do exampleNested =
    Ok {[ "y" := VMap {[ "b" := VNum 2 ]} ]} ∧
  parseProperty Do "auth" exampleNested ∅ =
    Ok {[ "auth" := VMap {[ "y" := VMap {[ "a" := VNum 1; "b" := VNum 2 ]} ]} ]} ∧
  parseProperty Do "auth" exampleNested ∅ ≠
    Ok {[ "auth" := VMap {[ "y" := VMap {[ "a" := VNum 1 ]} ]} ]} ∧
  parseProperty Do "auth" exampleScalar ∅ = Err ErrDifferentArgumentsTypes.
Proof.
  assert (H : parseProperty Do "auth" exampleNested ∅ =
    Ok {[ "auth" := VMap {[ "y" := VMap {[ "a" := VNum 1; "b" := VNum 2 ]} ]} ]})
    by (vm_compute; reflexivity).
  repeat split; try (vm_compute; reflexivity).
  rewrite H. intros Heq.
  apply (f_equal (λ o : outcome (gmap string value),
                    match o with
                    | Ok m => vget "b" (vget "y" (m !! "auth"))
                    | _ => None
                    end)) in Heq.
  vm_compute in Heq. discriminate.
Qed.

Lemma deepMerge_singleton_eq (dst : gmap string value) (key : string)
      (v : value) :
  deepMerge dst {[ key := v ]} !! key =
    Some match dst !! key, v with
         | Some (VMap dstMap), VMap srcMap => VMap (deepMerge dstMap srcMap)
         | _, _ => v
         end.
Proof. by rewrite deepMerge_lookup_eq, lookup_singleton_eq. Qed.

Lemma deepMerge_singleton_ne (dst : gmap string value) (key k : string)
      (v : value) :
  k ≠ key → deepMerge dst {[ key := v ]} !! k = dst !! k.
Proof. intros Hne. by rewrite deepMerge_lookup_eq, lookup_singleton_ne. Qed.

(** C3 (as amended).  For every value tree and every digest table,
    [applyDigests] leaves a mapping under [global.modulesImages.digests]:
    the supplied table when no mapping was under that key before, and
    otherwise the prior mapping with the supplied table merged into it key
    by key.  In the merged mapping a key that the table lacks keeps its
    prior entry; a key of the table holds the supplied entry, except that
    where the prior entry and the supplied entry are both mappings, the two
    mappings are merged by the same rule (the supplied entry does not
    replace the prior one).  The levels [global] and [modulesImages] are
    created when they are not mappings already, and every other key of the
    tree, of [global] and of [modulesImages] is kept. *)
Theorem applyDigests_overlay (digests values : gmap string value) :
  let out := applyDigests digests values in
  vget "digests" (vget "modulesImages" (out !! "global")) =
    Some (VMap match vget "digests" (vget "modulesImages" (values !! "global")) with
               | Some (VMap prior) => deepMerge prior digests
               | _ => digests
               end) ∧
  (∀ name : string,
     match vget "digests" (vget "modulesImages" (values !! "global")) with
     | Some (VMap prior) =>
         deepMerge prior digests !! name =
           match digests !! name with
           | None => prior !! name
           | Some digest =>
               Some match prior !! name, digest with
                    | Some (VMap old), VMap new => VMap (deepMerge old new)
                    | _, _ => digest
                    end
           end
     | _ => True
     end) ∧
  (∀ key, key ≠ "global" → out !! key = values !! key) ∧
  (∀ key, key ≠ "modulesImages" →
     vget key (out !! "global") = vget key (values !! "global")) ∧
  (∀ key, key ≠ "digests" →
     vget key (vget "modulesImages" (out !! "global")) =
     vget key (vget "modulesImages" (values !! "global"))).
Proof.
  cbn zeta. unfold applyDigests, Merge.
  split; [|split; [|split; [|split]]].
  - rewrite deepMerge_singleton_eq.
    destruct (values !! "global") as [[| | | | |g]|]; cbn;
      try (by rewrite !lookup_singleton_eq).
    rewrite deepMerge_singleton_eq.
    destruct (g !! "modulesImages") as [[| | | | |m]|]; cbn;
      try (by rewrite !lookup_singleton_eq).
    rewrite deepMerge_singleton_eq.
    by destruct (m !! "digests") as [[]|].
  - intros name.
    destruct (vget "digests" _) as [[| | | | |prior]|]; try done.
    apply deepMerge_lookup_eq.
  - intros key Hne. by rewrite deepMerge_singleton_ne.
  - intros key Hne. rewrite deepMerge_singleton_eq.
    destruct (values !! "global") as [[| | | | |g]|]; cbn;
      try (by rewrite lookup_singleton_ne).
    by rewrite deepMerge_singleton_ne.
  - intros key Hne. rewrite deepMerge_singleton_eq.
    destruct (values !! "global") as [[| | | | |g]|]; cbn;
      try (by rewrite lookup_singleton_eq; cbn; rewrite lookup_singleton_ne).
    rewrite deepMerge_singleton_eq.
    destruct (g !! "modulesImages") as [[| | | | |m]|]; cbn;
      try (by rewrite lookup_singleton_ne).
    by rewrite deepMerge_singleton_ne.
Qed.

Lemma applyDigests_overlay_witness :
  ("myModule" ≠ "global" ∧ "clusterName" ≠ "modulesImages" ∧
   "registry" ≠ "digests") ∧
  vget "digests" (vget "modulesImages" (applyDigests digestTable ∅ !! "global")) =
    Some (VMap digestTable) ∧
  applyDigests digestTable valuesWithDigests !! "myModule" =
    Some (VMap {[ "replicas" := VNum 3 ]}) ∧
  vget "clusterName" (applyDigests digestTable valuesWithDigests !! "global") =
    Some (VStr "main") ∧
  vget "registry"
       (vget "modulesImages" (applyDigests digestTable valuesWithDigests !! "global")) =
    Some (VStr "registry.example.com").
Proof.
  split; [done|].
  pose proof (applyDigests_overlay digestTable ∅) as (H0 & _).
  pose proof (applyDigests_overlay digestTable valuesWithDigests)
    as (_ & _ & H1 & H2 & H3).
  split; [exact H0|]. split; [|split].
  - rewrite (H1 "myModule") by done. vm_compute. reflexivity.
  - rewrite (H2 "clusterName") by done. vm_compute. reflexivity.
  - rewrite (H3 "registry") by done. vm_compute. reflexivity.
Defined.

(** C3 as stated fails: a mapping already present under
    [global.modulesImages.digests] is not replaced by the supplied table,
    the table is merged into it, and a prior entry under another key is
    still there after the call. *)
Lemma applyDigests_overlay_counterexample :
  vget "digests"
       (vget "modulesImages" (applyDigests digestTable valuesWithDigests !! "global")) =
    Some (VMap {[ "old" := VStr "sha256:old"; "img" := VStr "sha256:abc" ]}) ∧
  vget "digests"
       (vget "modulesImages" (applyDigests digestTable valuesWithDigests !! "global")) ≠
    Some (VMap digestTable).
Proof.
  assert (H : vget "digests"
       (vget "modulesImages" (applyDigests digestTable valuesWithDigests !! "global")) =
    Some (VMap {[ "old" := VStr "sha256:old"; "img" := VStr "sha256:abc" ]}))
    by (vm_compute; reflexivity).
  split; [exact H|]. rewrite H. intros Heq.
  apply (f_equal (vget "old")) in Heq. vm_compute in Heq. discriminate.
Qed.

(** C2 (as amended).  Once the schemas are loaded and the document of the
    module is there, [ComposeValuesFromSchemas] returns an error whenever
    the module document lacks the key ["values"] (or holds a nil schema
    under it), and leaves the API versions of the default capabilities as
    they were.  A global document that lacks ["values"] is not an error:
    the call then does what it does on a global document whose ["values"]
    schema is empty. *)
Theorem ComposeValuesFromSchemas_missing_values
        (ChartMetadata : Type)
        (NewValuesValidator : string → string → option ValuesValidator + error)
        (ToLowerCamel : string → string)
        (DefaultImagesDigests : gmap string value)
        (statDigestFile : string → option Z)
        (getModulesImagesDigestsFromLocalPath : string → gmap string value + error)
        (m : Module ChartMetadata) (apiVersions : list string)
        (valueValidator : ValuesValidator) (storage : SchemaStorage)
        (schemas : gmap string (option Schema)) :
  NewValuesValidator (GetName m) (GetPath m) = inl (Some valueValidator) →
  ModuleSchemaStorages valueValidator !! GetName m = Some storage →
  Schemas storage = Some schemas →
  ((schemas !! "values" = None ∨ schemas !! "values" = Some None) →
   ComposeValuesFromSchemas ChartMetadata NewValuesValidator ToLowerCamel
     DefaultImagesDigests statDigestFile
     getModulesImagesDigestsFromLocalPath m apiVersions =
   (Err (Errorf ("cannot find openapi values schema for module " ++ GetName m)),
    apiVersions)) ∧
  ((schemaAt (GlobalSchemaStorage valueValidator) "values" = None ∨
    schemaAt (GlobalSchemaStorage valueValidator) "values" = Some None) →
   ComposeValuesFromSchemas ChartMetadata NewValuesValidator ToLowerCamel
     DefaultImagesDigests statDigestFile
     getModulesImagesDigestsFromLocalPath m apiVersions =
   ComposeValuesFromSchemas ChartMetadata
     (λ _ _, inl (Some (withGlobal emptyGlobal valueValidator))) ToLowerCamel
     DefaultImagesDigests statDigestFile
     getModulesImagesDigestsFromLocalPath m apiVersions).
Proof.
  intros Hload Hstorage Hschemas.
  assert (Hat : schemaAt storage "values" = schemas !! "values")
    by (unfold schemaAt; by rewrite Hschemas).
  unfold ComposeValuesFromSchemas. rewrite Hload.
  cbn [withGlobal ModuleSchemaStorages GlobalSchemaStorage].
  rewrite Hstorage, Hschemas, Hat. split.
  - intros [-> | ->]; reflexivity.
  - intros Hglobal.
    destruct (schemas !! "values") as [[values|]|]; [|reflexivity..].
    replace (schemaAt emptyGlobal "values") with (Some (Some emptySchema))
      by (vm_compute; reflexivity).
    unfold composeFromValues.
    destruct Hglobal as [-> | ->]; reflexivity.
Qed.

Lemma ComposeValuesFromSchemas_missing_values_witness :
  (loaded moduleWithoutValues emptyGlobal (GetName myModule) (GetPath myModule) =
     inl (Some {| GlobalSchemaStorage := emptyGlobal;
                  ModuleSchemaStorages := {[ "my-module" := moduleWithoutValues ]} |}) ∧
   ({[ "my-module" := moduleWithoutValues ]} : gmap string SchemaStorage)
     !! GetName myModule = Some moduleWithoutValues ∧
   Schemas moduleWithoutValues = Some {[ "config-values" := Some myValues ]} ∧
   ({[ "config-values" := Some myValues ]} : gmap string (option Schema))
     !! "values" = None) ∧
  compose moduleWithoutValues emptyGlobal =
    (Err (Errorf "cannot find openapi values schema for module my-module"),
     ["v1"]).
Proof.
  split; [repeat split; vm_compute; reflexivity|].
  exact (proj1 (ComposeValuesFromSchemas_missing_values unit
                  (loaded moduleWithoutValues emptyGlobal)
                  (λ _, "myModule") digestTable (λ _, None)
                  (λ _, inr (ErrExternal "no digest file")) myModule ["v1"]
                  _ moduleWithoutValues _ eq_refl eq_refl eq_refl)
               (or_introl eq_refl)).
Defined.

(** C2 as stated fails: with a global document that lacks ["values"] the
    call does not return an error, it returns the values generated from an
    empty global schema (and leaves the API versions of the default
    capabilities extended by one entry). *)
Lemma ComposeValuesFromSchemas_global_counterexample :
  schemaAt globalWithoutValues "values" = None ∧
  compose moduleWithValues globalWithoutValues =
    (Ok (Some {| Chart := tt;
                 Capabilities := DefaultCapabilities;
                 Release := {| Name := "my-module"; Namespace := "d8-my-module";
                                IsUpgrade := true; IsInstall := true;
                                Revision := 0; Service := "Helm" |};
                 Values :=
                   {[ "myModule" := VMap {[ "replicas" := VNum 3 ]};
                      "global" :=
                        VMap {[ "modulesImages" :=
                                  VMap {[ "digests" := VMap digestTable ]} ]} ]} |}),
     ["v1"; "autoscaling.k8s.io/v1/VerticalPodAutoscaler"]).
Proof. split; vm_compute; reflexivity. Qed.

(** * Facts about the reference semantics *)

Module StoreFacts.

Import Store.

(** ** The merge works on a copy

    [deepcopy.Copy] writes nothing: it only allocates, and the property
    map of the copy is a fresh location.  [mergeSchemas], run on the copy,
    writes the copy and its property map only.  Whatever the store, the
    objects that were there before [parseOneOf] or [parseAnyOf] copied and
    merged are therefore as they were. *)

Lemma bind_Ok {A B} (x : M A) (f : A → M B) (σ σ' : store) (b : B) :
  (x ≫= f) σ = Ok (b, σ') →
  ∃ a σ1, x σ = Ok (a, σ1) ∧ f a σ1 = Ok (b, σ').
Proof.
  unfold mbind, M_bind. destruct (x σ) as [[a σ1]| | |]; try done. eauto.
Qed.

Lemma ret_Ok {A} (a b : A) (σ σ' : store) :
  (mret a : M A) σ = Ok (b, σ') → b = a ∧ σ' = σ.
Proof. by intros [= <- <-]. Qed.

Lemma alloc_Ok (c : cell) (σ σ' : store) (l : loc) :
  alloc c σ = Ok (l, σ') → l = length σ ∧ σ' = (σ ++ [c])%list.
Proof. by intros [= <- <-]. Qed.

Lemma readVals_Ok (l : loc) (σ σ' : store) (m : gmap string value) :
  readVals l σ = Ok (m, σ') → σ' = σ ∧ σ !! l = Some (CVals m).
Proof. unfold readVals. destruct (σ !! l) as [[]|]; by intros [= <- <-]. Qed.

Lemma readProps_Ok (l : loc) (σ σ' : store) (m : gmap string Schema) :
  readProps l σ = Ok (m, σ') → σ' = σ ∧ σ !! l = Some (CProps m).
Proof. unfold readProps. destruct (σ !! l) as [[]|]; by intros [= <- <-]. Qed.

Lemma readSchema_Ok (l : loc) (σ σ' : store) (s : Schema) :
  readSchema l σ = Ok (s, σ') → σ' = σ ∧ σ !! l = Some (CSchema s).
Proof. unfold readSchema. destruct (σ !! l) as [[]|]; by intros [= <- <-]. Qed.

Lemma writeProps_Ok (l : loc) (m : gmap string Schema) (σ σ' : store) (u : unit) :
  writeProps l m σ = Ok (u, σ') →
  σ' = <[l := CProps m]> σ ∧ ∃ m0, σ !! l = Some (CProps m0).
Proof.
  unfold writeProps. destruct (σ !! l) as [[]|]; try done.
  intros [= <- <-]. eauto.
Qed.

Lemma writeSchema_Ok (l : loc) (s : Schema) (σ σ' : store) (u : unit) :
  writeSchema l s σ = Ok (u, σ') →
  σ' = <[l := CSchema s]> σ ∧ ∃ s0, σ !! l = Some (CSchema s0).
Proof.
  unfold writeSchema. destruct (σ !! l) as [[]|]; try done.
  intros [= <- <-]. eauto.
Qed.

Lemma allocates_ret {A} (a : A) : allocates (mret a).
Proof. by intros σ b σ' [_ ->]%ret_Ok. Qed.

Lemma allocates_bind {A B} (x : M A) (f : A → M B) :
  allocates x → (∀ a, allocates (f a)) → allocates (x ≫= f).
Proof.
  intros Hx Hf σ b σ' (a & σ1 & H1 & H2)%bind_Ok.
  etrans; [by eapply Hx|by eapply Hf].
Qed.

Lemma allocates_alloc (c : cell) : allocates (alloc c).
Proof. intros σ l σ' [_ ->]%alloc_Ok. by apply prefix_app_r. Qed.

Lemma allocates_readVals (l : loc) : allocates (readVals l).
Proof. by intros σ m σ' [-> _]%readVals_Ok. Qed.

Lemma allocates_readProps (l : loc) : allocates (readProps l).
Proof. by intros σ m σ' [-> _]%readProps_Ok. Qed.

Lemma allocates_readSchema (l : loc) : allocates (readSchema l).
Proof. by intros σ m σ' [-> _]%readSchema_Ok. Qed.

Lemma allocates_diverge {A} : allocates (@diverge A).
Proof. by intros σ a σ'. Qed.

Lemma allocates_mapEach {A B} (xs : list A) (f : A → M B) :
  (∀ x, allocates (f x)) → allocates (mapEach xs f).
Proof.
  intros Hf. induction xs as [|x xs IH]; cbn.
  - apply allocates_ret.
  - apply allocates_bind; [done|]. intros y.
    apply allocates_bind; [done|]. intros ys. apply allocates_ret.
Qed.

Ltac allocates_step :=
  first
    [ apply allocates_ret
    | apply allocates_alloc
    | apply allocates_readVals
    | apply allocates_readProps
    | apply allocates_readSchema
    | apply allocates_diverge
    | apply allocates_mapEach; intros ?
    | apply allocates_bind; [|intros ?]
    | assumption
    | match goal with
      | IH : ∀ x, allocates (_ x) |- _ => apply IH
      | |- allocates (match ?x with _ => _ end) => destruct x
      | |- allocates (let (_, _) := ?x in _) => destruct x
      end ].

Lemma allocates_copyValue (fuel : nat) (v : value) : allocates (copyValue fuel v).
Proof.
  revert v. induction fuel as [|fuel IH]; intros v; cbn; repeat allocates_step.
Qed.

Lemma allocates_copyVals (fuel : nat) (l : option loc) :
  allocates (copyVals fuel l).
Proof.
  unfold copyVals. destruct l; [|apply allocates_ret].
  apply allocates_bind; [apply allocates_copyValue|].
  intros v. destruct v; apply allocates_ret.
Qed.

Lemma allocates_copySchema (fuel : nat) (s : Schema) :
  allocates (copySchema fuel s).
Proof.
  revert s. induction fuel as [|fuel IH]; intros s; cbn;
    [apply allocates_diverge|].
  pose proof (allocates_copyValue fuel) as Hv.
  pose proof (allocates_copyVals fuel) as Hvs.
  repeat allocates_step.
Qed.

(** The property map of a copy is a fresh location. *)
Lemma copySchema_fresh (fuel : nat) (s s' : Schema) (σ σ' : store) (pl : loc) :
  copySchema fuel s σ = Ok (s', σ') → Properties s' = Some pl → length σ ≤ pl.
Proof.
  destruct fuel as [|fuel]; [done|]. cbn. intros H Hpl.
  apply bind_Ok in H as (properties & σ1 & Hprops & H).
  do 7 (apply bind_Ok in H as (? & ? & _ & H)).
  apply ret_Ok in H as [-> _]. cbn in Hpl. subst properties.
  destruct (Properties s) as [l|]; [|by apply ret_Ok in Hprops as [? _]].
  apply bind_Ok in Hprops as (m & σa & [-> _]%readProps_Ok & Hprops).
  apply bind_Ok in Hprops as (entries & σb & Hentries & Hprops).
  apply bind_Ok in Hprops as (l' & σc & [-> _]%alloc_Ok & Hprops).
  apply ret_Ok in Hprops as [[= ->] _].
  apply prefix_length.
  eapply (allocates_mapEach _ _ (λ kp, allocates_bind _ _
            (allocates_copySchema fuel kp.2) (λ _, allocates_ret _))).
  exact Hentries.
Qed.

(** The copy that [deepcopy.Copy] returns: a fresh pointer to a schema
    whose property map is fresh, in a store that extends the given one. *)
Lemma deepcopy_Copy_fresh (fuel : nat) (prop d : loc) (σ σ' : store) :
  deepcopy_Copy fuel prop σ = Ok (d, σ') →
  take (length σ) σ' = σ ∧ length σ ≤ d ∧
  ∃ s, σ' !! d = Some (CSchema s) ∧
       ∀ pl, Properties s = Some pl → length σ ≤ pl.
Proof.
  unfold deepcopy_Copy. intros H.
  apply bind_Ok in H as (s & σa & [-> _]%readSchema_Ok & H).
  apply bind_Ok in H as (s' & σb & Hcopy & [-> ->]%alloc_Ok).
  pose proof (allocates_copySchema _ _ _ _ _ Hcopy) as [ext ->].
  split; [|split].
  - by rewrite <- (assoc_L (++)), take_app_length.
  - rewrite length_app. lia.
  - exists s'. split; [by apply list_lookup_middle|].
    intros pl Hpl. by eapply copySchema_fresh.
Qed.

Lemma forEach_inv {A} (n : nat) (I : store → Prop) (xs : list A)
      (body : A → M unit) :
  (∀ x σ σ' u, I σ → body x σ = Ok (u, σ') → take n σ' = take n σ ∧ I σ') →
  ∀ σ σ' u, I σ → forEach xs body σ = Ok (u, σ') →
            take n σ' = take n σ ∧ I σ'.
Proof.
  intros Hbody. induction xs as [|x xs IH]; intros σ σ' u HI H; cbn in H.
  - by apply ret_Ok in H as [_ ->].
  - apply bind_Ok in H as (u1 & σ1 & H1 & H2).
    destruct (Hbody _ _ _ _ HI H1) as [Ht1 HI1].
    destruct (IH _ _ _ HI1 H2) as [Ht2 HI2].
    split; [congruence|done].
Qed.

Lemma writeSchema_rootAbove (n : nat) (root : loc) (s : Schema) (σ σ' : store)
      (u : unit) (pl : loc) :
  n ≤ length σ → n ≤ root → Properties s = Some pl → n ≤ pl →
  writeSchema root s σ = Ok (u, σ') →
  take n σ' = take n σ ∧ rootAbove n root σ'.
Proof.
  intros Hn Hroot Hs Hpl [-> [s0 Hs0]]%writeSchema_Ok.
  split; [by apply take_insert_ge|].
  split; [by rewrite length_insert|]. split; [done|].
  exists s, pl. split; [|done].
  apply list_lookup_insert_eq. by eapply lookup_lt_Some.
Qed.

Lemma mergeSchemas_frame (n : nat) (root m : loc) (schemas : list Schema)
      (σ σ' : store) :
  n ≤ length σ → n ≤ root →
  (∃ s, σ !! root = Some (CSchema s) ∧ ∀ pl, Properties s = Some pl → n ≤ pl) →
  mergeSchemas (Some root) schemas σ = Ok (m, σ') →
  take n σ' = take n σ.
Proof.
  intros Hn Hroot (s & Hs & Hfresh) H. unfold mergeSchemas in H.
  apply bind_Ok in H as (r & σ0 & [-> ->]%ret_Ok & H).
  apply bind_Ok in H as (s1 & σ0 & [-> Hs1]%readSchema_Ok & H).
  rewrite Hs in Hs1. injection Hs1 as <-.
  apply bind_Ok in H as (u1 & σ1 & H1 & H).
  assert (Hinit : take n σ1 = take n σ ∧ rootAbove n root σ1).
  { destruct (Properties s) as [pl|] eqn:Hprops.
    - apply ret_Ok in H1 as [_ ->]. split; [done|].
      split; [done|]. split; [done|]. exists s, pl. eauto.
    - apply bind_Ok in H1 as (pl & σa & [-> ->]%alloc_Ok & H1).
      eapply (writeSchema_rootAbove n root _ _ _ _ (length σ)) in H1
        as [Ht HI]; try done.
      + split; [|done]. by rewrite Ht, take_app_le.
      + rewrite length_app. lia. }
  clear H1. destruct Hinit as [Ht1 HI1].
  apply bind_Ok in H as (s2 & σ1' & [-> Hs2]%readSchema_Ok & H).
  apply bind_Ok in H as (u2 & σ2 & H2 & H).
  destruct HI1 as (Hn1 & _ & s1 & pl1 & Hs1 & Hpl1 & Hge1).
  rewrite Hs1 in Hs2. injection Hs2 as <-.
  eapply (writeSchema_rootAbove n root _ _ _ _ pl1) in H2 as [Ht2 HI2];
    try done.
  apply bind_Ok in H as (u3 & σ3 & H3 & [_ ->]%ret_Ok).
  eapply (forEach_inv n (rootAbove n root)) in H3 as [Ht3 _]; [congruence| |done].
  clear. intros schema σ σ' u HI H.
  apply bind_Ok in H as (u1 & σ1 & H1 & H).
  assert (Hinner : take n σ1 = take n σ ∧ rootAbove n root σ1).
  { destruct (Properties schema) as [schemaProperties|];
      [|by apply ret_Ok in H1 as [_ ->]].
    apply bind_Ok in H1 as (branch & σa & [-> _]%readProps_Ok & H1).
    eapply (forEach_inv n (rootAbove n root)) in H1; [done| |done].
    clear. intros key σ σ' u HI H.
    apply bind_Ok in H as (branch & σa & [-> _]%readProps_Ok & H).
    destruct (branch !! key) as [prop|]; [|by apply ret_Ok in H as [_ ->]].
    apply bind_Ok in H as (s & σa & [-> Hs]%readSchema_Ok & H).
    destruct HI as (Hn & Hroot & s' & pl & Hs' & Hpl & Hge).
    rewrite Hs' in Hs. injection Hs as <-. rewrite Hpl in H.
    apply bind_Ok in H as (m & σa & [-> Hm]%readProps_Ok & H).
    apply writeProps_Ok in H as [-> _].
    split; [by apply take_insert_ge|].
    split; [by rewrite length_insert|]. split; [done|].
    exists s', pl. split; [|done].
    rewrite list_lookup_insert_ne; [done|]. intros ->. congruence. }
  destruct Hinner as [Ht1 HI1].
  apply bind_Ok in H as (s & σ1' & [-> Hs]%readSchema_Ok & H).
  destruct HI1 as (Hn1 & Hroot & s1 & pl1 & Hs1 & Hpl1 & Hge1).
  rewrite Hs1 in Hs. injection Hs as <-.
  eapply (writeSchema_rootAbove n root _ _ _ _ pl1) in H as [Ht2 HI2]; try done.
  split; [congruence|done].
Qed.

(** The two steps of [parseOneOf] and [parseAnyOf] that write to a schema,
    on any store and for any branches: what was in the store before the
    copy is still there after the merge. *)
Lemma merge_on_copy_frame (fuel : nat) (prop d m : loc)
      (schemas : list Schema) (σ σ1 σ2 : store) :
  deepcopy_Copy fuel prop σ = Ok (d, σ1) →
  mergeSchemas (Some d) schemas σ1 = Ok (m, σ2) →
  take (length σ) σ2 = σ.
Proof.
  intros (Ht & Hd & Hs)%deepcopy_Copy_fresh Hmerge.
  rewrite <- Ht at 2.
  eapply mergeSchemas_frame; [|exact Hd|exact Hs|exact Hmerge].
  rewrite <- Ht at 1. rewrite length_take. lia.
Qed.

(** C6.  The code at a schema with nested examples.  The claim is that
    resolving a property leaves the schema it is given as it was.  Here the
    call returns normally, and the example of the inner property [p], which
    was [{y: {a: 1}}] before the call, is [{y: {a: 1, z: 1}}] after it: the
    map under [y] (location 0) was stored by reference into the mapping
    generated for [p], and the merge of the example of [outer] then wrote
    [z] into it in place. *)
Theorem parseProperty_mutates_examples :
  parseProperty (parseProperties 10) 10 "g" 8 9 nestedExamples =
    Ok (tt, nestedExamplesAfter) ∧
  nestedExamples !! 0 = Some (CVals {[ "a" := VNum 1 ]}) ∧
  nestedExamplesAfter !! 0 = Some (CVals {[ "a" := VNum 1; "z" := VNum 1 ]}) ∧
  take 9 nestedExamplesAfter ≠ take 9 nestedExamples.
Proof.
  split; [vm_compute; reflexivity|]. split; [reflexivity|].
  split; [reflexivity|]. intros Heq.
  apply (f_equal (λ σ : store,
                    match σ !! 0 with
                    | Some (CVals m) => m !! "z"
                    | _ => None
                    end)) in Heq.
  vm_compute in Heq. discriminate.
Qed.

(** On the [oneOf] schema of [oneOfStore] the call writes the result map
    and fresh locations only: the merge works on the copy at location 6,
    whose property map is the fresh location 7. *)
Lemma parseProperty_oneOf_preserves_schema :
  ∃ σ, parseProperty (parseProperties 10) 10 "backend" 2 3 oneOfStore = Ok (tt, σ) ∧
       take 3 σ = take 3 oneOfStore ∧
       σ !! 3 = Some (CVals {[ "backend" := VMap 8 ]}) ∧
       σ !! 7 = Some (CProps {[ "a" := leaf (VNum 2); "b" := leaf (VNum 3) ]}) ∧
       σ !! 8 = Some (CVals {[ "a" := VNum 2; "b" := VNum 3 ]}).
Proof.
  eexists. split; [vm_compute; reflexivity|].
  repeat split; vm_compute; reflexivity.
Qed.

End StoreFacts.

(** On the schemas of the examples, the run over the store returns the
    mapping that the value semantics computes. *)
Lemma semantics_agree_on_examples :
  Forall (λ prop, runOnStore 10 "k" prop =
                  (λ m, Some (VMap m)) <$> parseProperty Do "k" prop ∅)
         [enumOnly; enumWithDefault; emptyExamples; allOfOnly; withAllOfOnly;
          oneOfOnly; oneOfAndAllOf; arrayOf emptySchema;
          arrayOf (setDefault (VStr "x") emptySchema);
          exampleX1; exampleY9; exampleNested; exampleScalar].
Proof. repeat constructor; vm_compute; reflexivity. Qed.

(** * Further properties of the generator

    ** The loop of [parseProperties] *)

Lemma parsePropertiesLoop_all_resolve
      (rec : option Schema → outcome (option (gmap string value)))
      (node : Schema) (out : gmap string value) (key : string) (prop : Schema) :
  parsePropertiesLoop rec node = Ok out →
  props node !! key = Some prop →
  ∃ produced, resolve rec key prop = Ok produced.
Proof.
  unfold parsePropertiesLoop. revert out key prop.
  apply (map_fold_weak_ind
           (λ (r : outcome (gmap string value)) (m : gmap string Schema),
              ∀ out key prop, r = Ok out → m !! key = Some prop →
                ∃ produced, resolve rec key prop = Ok produced)).
  - intros out key prop _. by rewrite lookup_empty.
  - intros i x m r Hi IH out key prop Hout Hkey.
    destruct r as [result| | |]; cbn in Hout; try done.
    rewrite parseProperty_resolve in Hout.
    destruct (resolve rec i x) as [produced| | |] eqn:Hres; cbn in Hout; try done.
    destruct (decide (i = key)) as [->|Hne].
    + rewrite lookup_insert_eq in Hkey. injection Hkey as <-. eauto.
    + rewrite lookup_insert_ne in Hkey by done. by eapply IH.
Qed.

(** X1. The mapping that [parseProperties] returns for a schema has an
    entry under a key exactly when the schema has a property under that key
    and the property resolves to a value, and the entry is that value. *)
Theorem Do_entries (node : Schema) (out : gmap string value)
        (key : string) (v : value) :
  Do (Some node) = Ok (Some out) →
  (out !! key = Some v ↔
   ∃ prop, props node !! key = Some prop ∧ resolve Do key prop = Ok (Some v)).
Proof.
  intros Hdo. apply Do_Some in Hdo as (out' & [= <-] & Hloop).
  rewrite (parsePropertiesLoop_lookup _ _ _ key Hloop). split.
  - destruct (props node !! key) as [prop|]; [|done].
    destruct (resolve Do key prop) as [produced| | |] eqn:Hres; try done.
    intros ->. eauto.
  - intros (prop & -> & ->). done.
Qed.

Lemma Do_entries_witness :
  Do (Some withAllOfOnly) = Ok (Some {[ "replicas" := VNum 3 ]}) ∧
  (({[ "replicas" := VNum 3 ]} : gmap string value) !! "replicas" = Some (VNum 3) ↔
   ∃ prop, props withAllOfOnly !! "replicas" = Some prop ∧
           resolve Do "replicas" prop = Ok (Some (VNum 3))).
Proof.
  assert (H : Do (Some withAllOfOnly) = Ok (Some {[ "replicas" := VNum 3 ]}))
    by (vm_compute; reflexivity).
  split; [exact H|].
  exact (Do_entries withAllOfOnly _ "replicas" (VNum 3) H).
Defined.

(** X2. A property whose resolution does not return (it fails, or it
    panics) makes [parseProperties] on the schema that holds it not return
    either: there is no partial result. *)
Theorem Do_needs_every_property (node : Schema) (key : string) (prop : Schema)
        (t : option (gmap string value)) :
  props node !! key = Some prop →
  (∀ produced, resolve Do key prop ≠ Ok produced) →
  Do (Some node) ≠ Ok t.
Proof.
  intros Hprop Hfail Hdo. apply Do_Some in Hdo as (out & _ & Hloop).
  destruct (parsePropertiesLoop_all_resolve _ _ _ _ _ Hloop Hprop) as [p Hp].
  by apply (Hfail p).
Qed.

Lemma Do_needs_every_property_witness :
  (props withScalarExample !! "auth" = Some exampleScalar ∧
   ∀ produced, resolve Do "auth" exampleScalar ≠ Ok produced) ∧
  Do (Some withScalarExample) ≠ Ok (Some {[ "replicas" := VNum 3 ]}).
Proof.
  assert (H1 : props withScalarExample !! "auth" = Some exampleScalar)
    by (vm_compute; reflexivity).
  assert (H2 : ∀ produced, resolve Do "auth" exampleScalar ≠ Ok produced).
  { intros produced.
    replace (resolve Do "auth" exampleScalar)
      with (Err ErrDifferentArgumentsTypes : outcome (option value))
      by (vm_compute; reflexivity).
    discriminate. }
  split; [by split|].
  exact (Do_needs_every_property withScalarExample "auth" exampleScalar _ H1 H2).
Defined.

(** X3. [parseProperties] returns a nil map for the nil node and for no
    other: for a schema it returns a map, the empty map when the schema has
    no property. *)
Theorem Do_nil_only_for_nil (rootSchema : option Schema) :
  (Do rootSchema = Ok None ↔ rootSchema = None) ∧
  (∀ node, rootSchema = Some node → props node = ∅ →
           Do rootSchema = Ok (Some ∅)).
Proof.
  split.
  - split; [|by intros ->].
    destruct rootSchema as [node|]; [|done].
    rewrite Do_loop. by destruct (parsePropertiesLoop Do node).
  - intros node -> Hprops. rewrite Do_loop. unfold parsePropertiesLoop.
    by rewrite Hprops, map_fold_empty.
Qed.

Lemma Do_nil_only_for_nil_witness :
  (Some emptySchema = Some emptySchema ∧ props emptySchema = ∅) ∧
  Do (Some emptySchema) = Ok (Some ∅).
Proof.
  split; [by split|].
  exact (proj2 (Do_nil_only_for_nil (Some emptySchema)) emptySchema
               eq_refl eq_refl).
Defined.

(** ** The switch of [parseProperty] *)

(** X4. [parseProperty] writes [result[key]] and nothing else: every
    other key of the result map is after the call as it was before, present
    or absent. *)
Theorem parseProperty_writes_its_key
        (rec : option Schema → outcome (option (gmap string value)))
        (key other : string) (prop : Schema) (result result' : gmap string value) :
  parseProperty rec key prop result = Ok result' →
  other ≠ key →
  result' !! other = result !! other.
Proof.
  rewrite parseProperty_resolve. intros H Hne.
  destruct (resolve rec key prop) as [[v|]| | |]; cbn in H; try done;
    injection H as <-; [by rewrite lookup_insert_ne|done].
Qed.

Lemma parseProperty_writes_its_key_witness :
  (parseProperty Do "mode" enumOnly {[ "replicas" := VNum 3 ]} =
     Ok {[ "mode" := VStr "a"; "replicas" := VNum 3 ]} ∧
   "replicas" ≠ "mode") ∧
  ({[ "mode" := VStr "a"; "replicas" := VNum 3 ]} : gmap string value)
    !! "replicas" =
  ({[ "replicas" := VNum 3 ]} : gmap string value) !! "replicas".
Proof.
  assert (H : parseProperty Do "mode" enumOnly {[ "replicas" := VNum 3 ]} =
                Ok {[ "mode" := VStr "a"; "replicas" := VNum 3 ]})
    by (vm_compute; reflexivity).
  split; [by split|].
  exact (parseProperty_writes_its_key Do "mode" "replicas" enumOnly _ _ H
           ltac:(discriminate)).
Defined.

(** X5. For a property whose types do not include ["object"] and whose
    [x-examples] gives a non-nil candidate example, [parseProperty] stores
    the candidate as it is, whatever the [enum], the default and the other
    fields of the property. *)
Theorem parseProperty_example_verbatim
        (rec : option Schema → outcome (option (gmap string value)))
        (key : string) (prop : Schema) (result : gmap string value)
        (example : value) :
  isCandidate (index (Extensions prop) ExamplesKey) example →
  notNil example = true →
  isObject prop = false →
  parseProperty rec key prop result = Ok (<[key := example]> result).
Proof.
  unfold isObject. intros Hc Hnn Hobj. unfold parseProperty, parseExamples.
  destruct Hc as [(conv & -> & ->)|[rest ->]]; cbn [notNil mbind outcome_bind];
    by rewrite ?Hnn, Hobj.
Qed.

Lemma parseProperty_example_verbatim_witness :
  (isCandidate (index (Extensions verbatimExample) ExamplesKey) (VStr "first") ∧
   notNil (VStr "first") = true ∧ isObject verbatimExample = false) ∧
  parseProperty Do "name" verbatimExample ∅ = Ok {[ "name" := VStr "first" ]}.
Proof.
  assert (Hc : isCandidate (index (Extensions verbatimExample) ExamplesKey)
                           (VStr "first"))
    by (right; by exists [VStr "second"]).
  split; [by repeat split|].
  exact (parseProperty_example_verbatim Do "name" verbatimExample ∅ _ Hc
           eq_refl eq_refl).
Defined.

(** X6. An [x-examples] that is a scalar (a string, a number, a boolean)
    selects the examples case and gives no candidate: [parseProperty]
    stores nothing, and neither the [enum] nor the default of the property
    is consulted. *)
Theorem parseProperty_scalar_examples
        (rec : option Schema → outcome (option (gmap string value)))
        (key : string) (prop : Schema) (result : gmap string value) :
  isScalar (index (Extensions prop) ExamplesKey) = true →
  parseProperty rec key prop result = Ok result.
Proof.
  intros Hs. unfold parseProperty, parseExamples.
  by destruct (index (Extensions prop) ExamplesKey).
Qed.

Lemma parseProperty_scalar_examples_witness :
  isScalar (index (Extensions scalarExample) ExamplesKey) = true ∧
  Default scalarExample = VStr "d" ∧
  parseProperty Do "name" scalarExample ∅ = Ok ∅.
Proof.
  split; [reflexivity|]. split; [reflexivity|].
  exact (parseProperty_scalar_examples Do "name" scalarExample ∅ eq_refl).
Defined.

(** X7. For a property without [x-examples] and without [enum] whose
    types include ["object"], [parseProperty] stores the mapping resolved
    from the properties of the property; its default plays no part, the
    result is the same with any other default. *)
Theorem parseProperty_object_ignores_default
        (key : string) (prop : Schema) (result : gmap string value) (d : value) :
  hasExamples prop = false → hasEnum prop = false → isObject prop = true →
  parseProperty Do key prop result =
    (t ← parsePropertiesLoop Do prop; Ok (<[key := VMap t]> result)) ∧
  parseProperty Do key (setDefault d prop) result =
    parseProperty Do key prop result.
Proof.
  unfold hasExamples, hasEnum, isObject. intros H1 H2 H3.
  assert (Heq : ∀ p, notNil (index (Extensions p) ExamplesKey) = false →
                     bool_decide (0 < length (Enum p)) = false →
                     Contains (Type_ p) ObjectKey = true →
                     parseProperty Do key p result =
                       (t ← parsePropertiesLoop Do p;
                        Ok (<[key := VMap t]> result))).
  { intros p E1 E2 E3. unfold parseProperty, parseObject.
    rewrite E1, E2, E3, Do_loop. by destruct (parsePropertiesLoop Do p). }
  split; [by apply Heq|].
  rewrite (Heq prop), (Heq (setDefault d prop)); done.
Qed.

Lemma parseProperty_object_ignores_default_witness :
  (hasExamples objectWithDefault = false ∧ hasEnum objectWithDefault = false ∧
   isObject objectWithDefault = true) ∧
  parseProperty Do "app" objectWithDefault ∅ =
    Ok {[ "app" := VMap {[ "replicas" := VNum 3 ]} ]}.
Proof.
  split; [by repeat split|].
  rewrite (proj1 (parseProperty_object_ignores_default "app" objectWithDefault
                    ∅ VNil eq_refl eq_refl eq_refl)).
  vm_compute. reflexivity.
Defined.

(** X8. For a property without [x-examples], without [enum], whose
    types do not include ["object"] and whose default is set,
    [parseProperty] stores the default as it is; the item schema, [oneOf],
    [anyOf] and [allOf] of the property are not consulted. *)
Theorem parseProperty_default_verbatim
        (rec : option Schema → outcome (option (gmap string value)))
        (key : string) (prop : Schema) (result : gmap string value) :
  hasExamples prop = false → hasEnum prop = false → isObject prop = false →
  hasDefault prop = true →
  parseProperty rec key prop result = Ok (<[key := Default prop]> result).
Proof.
  unfold hasExamples, hasEnum, isObject, hasDefault. intros H1 H2 H3 H4.
  unfold parseProperty. by rewrite H1, H2, H3, H4.
Qed.

Lemma parseProperty_default_verbatim_witness :
  (hasExamples arrayWithDefault = false ∧ hasEnum arrayWithDefault = false ∧
   isObject arrayWithDefault = false ∧ hasDefault arrayWithDefault = true) ∧
  parseProperty Do "hosts" arrayWithDefault ∅ =
    Ok {[ "hosts" := VSlice [VStr "d"] ]}.
Proof.
  split; [by repeat split|].
  exact (parseProperty_default_verbatim Do "hosts" arrayWithDefault ∅
           eq_refl eq_refl eq_refl eq_refl).
Defined.

(** ** [oneOf] and [anyOf] *)

Lemma mergeSchemas_forgets_compositions
      (o a y : option (list Schema)) (base : Schema) (branches : list Schema) :
  mergeSchemas (Some (setCompositions o a y base)) branches =
  mergeSchemas (Some base) branches.
Proof. unfold mergeSchemas. cbn. by destruct (Properties base). Qed.

Lemma parsePropertiesLoop_props
      (rec : option Schema → outcome (option (gmap string value)))
      (node node' : Schema) :
  props node = props node' →
  parsePropertiesLoop rec node = parsePropertiesLoop rec node'.
Proof. unfold parsePropertiesLoop. by intros ->. Qed.

Lemma mergeSchemas_nil_props (base : Schema) :
  props (mergeSchemas (Some base) []) = props base.
Proof.
  apply map_eq. intros key. by rewrite mergeSchemas_props.
Qed.

Lemma parseOneOf_loop (key : string) (prop : Schema) (result : gmap string value) :
  parseOneOf Do key prop result =
    (t ← parsePropertiesLoop Do
           (mergeSchemas (Some prop) (default [] (OneOf prop)));
     Ok (<[key := VMap t]> result)).
Proof.
  unfold parseOneOf, deepcopy_Copy. rewrite Do_loop.
  by destruct (parsePropertiesLoop Do _).
Qed.

Lemma parseAnyOf_loop (key : string) (prop : Schema) (result : gmap string value) :
  parseAnyOf Do key prop result =
    (t ← parsePropertiesLoop Do
           (mergeSchemas (Some prop) (default [] (AnyOf prop)));
     Ok (<[key := VMap t]> result)).
Proof.
  unfold parseAnyOf, deepcopy_Copy. rewrite Do_loop.
  by destruct (parsePropertiesLoop Do _).
Qed.

(** X9. For a property on which none of the rules 1 to 5 matches, whose
    [allOf] and [oneOf] are nil and whose [anyOf] is set, [parseProperty]
    stores the mapping resolved from the properties of the schema obtained
    by merging the [anyOf] branches over the property. *)
Theorem parseProperty_anyOf (key : string) (prop : Schema)
        (result : gmap string value) (branches : list Schema) :
  noRule1to5 prop = true →
  AllOf prop = None → OneOf prop = None → AnyOf prop = Some branches →
  parseProperty Do key prop result =
    (t ← parsePropertiesLoop Do (mergeSchemas (Some prop) branches);
     Ok (<[key := VMap t]> result)).
Proof.
  intros Hno Hall Hone Hany.
  rewrite parseProperty_compositions, Hall, Hone, Hany by done.
  by rewrite parseAnyOf_loop, Hany.
Qed.

Lemma parseProperty_anyOf_witness :
  (noRule1to5 anyOfOnly = true ∧ AllOf anyOfOnly = None ∧
   OneOf anyOfOnly = None ∧ AnyOf anyOfOnly = Some [branchA1; branchA2B3]) ∧
  parseProperty Do "backend" anyOfOnly ∅ =
    Ok {[ "backend" := VMap {[ "a" := VNum 2; "b" := VNum 3 ]} ]}.
Proof.
  split; [by repeat split|].
  rewrite (parseProperty_anyOf "backend" anyOfOnly ∅ [branchA1; branchA2B3]);
    vm_compute; reflexivity.
Defined.

(** X10. When [oneOf] is set and is the case taken, the [anyOf] of the
    property is not used: the call gives what it gives on the same property
    with any other [anyOf]. *)
Theorem parseProperty_oneOf_ignores_anyOf (key : string) (prop : Schema)
        (result : gmap string value) (branches : list Schema)
        (anyOf : option (list Schema)) :
  noRule1to5 prop = true →
  AllOf prop = None → OneOf prop = Some branches →
  parseProperty Do key (setCompositions (OneOf prop) (AllOf prop) anyOf prop) result =
  parseProperty Do key prop result.
Proof.
  intros Hno Hall Hone.
  rewrite !parseProperty_compositions by done. cbn [AllOf OneOf setCompositions].
  rewrite Hall, Hone, !parseOneOf_loop. cbn [OneOf setCompositions].
  by rewrite Hone, <- Hone, <- Hall, mergeSchemas_forgets_compositions.
Qed.

Lemma parseProperty_oneOf_ignores_anyOf_witness :
  (noRule1to5 oneOfAndAnyOf = true ∧ AllOf oneOfAndAnyOf = None ∧
   OneOf oneOfAndAnyOf = Some [branchA1]) ∧
  parseProperty Do "backend" oneOfAndAnyOf ∅ =
    Ok {[ "backend" := VMap {[ "a" := VNum 1 ]} ]}.
Proof.
  split; [by repeat split|].
  rewrite <- (parseProperty_oneOf_ignores_anyOf "backend" oneOfAndAnyOf ∅
                [branchA1] None eq_refl eq_refl eq_refl).
  vm_compute. reflexivity.
Defined.

(** X11. A [oneOf] that is set and empty resolves the property from its
    own properties, as if its types included ["object"]. *)
Theorem parseProperty_empty_oneOf (key : string) (prop : Schema)
        (result : gmap string value) :
  noRule1to5 prop = true →
  AllOf prop = None → OneOf prop = Some [] →
  parseProperty Do key prop result =
    (t ← parsePropertiesLoop Do prop; Ok (<[key := VMap t]> result)).
Proof.
  intros Hno Hall Hone.
  rewrite parseProperty_compositions, Hall, Hone by done.
  rewrite parseOneOf_loop, Hone. cbn [default].
  by rewrite (parsePropertiesLoop_props _ _ prop (mergeSchemas_nil_props prop)).
Qed.

Lemma parseProperty_empty_oneOf_witness :
  (noRule1to5 emptyOneOf = true ∧ AllOf emptyOneOf = None ∧
   OneOf emptyOneOf = Some []) ∧
  parseProperty Do "backend" emptyOneOf ∅ =
    Ok {[ "backend" := VMap {[ "a" := VNum 1 ]} ]}.
Proof.
  split; [by repeat split|].
  rewrite (parseProperty_empty_oneOf "backend" emptyOneOf ∅); vm_compute; reflexivity.
Defined.

(** X12. The mapping stored for a [oneOf] property, key by key: under a
    key it holds what the property of the last branch defining that key
    resolves to, and what the property of the base resolves to when no
    branch defines the key. *)
Theorem parseProperty_oneOf_entries (key : string) (prop : Schema)
        (result result' : gmap string value) (branches : list Schema) :
  noRule1to5 prop = true →
  AllOf prop = None → OneOf prop = Some branches →
  parseProperty Do key prop result = Ok result' →
  ∃ t, result' = <[key := VMap t]> result ∧
       ∀ k, t !! k = produced k (lastDefinition k prop branches).
Proof.
  intros Hno Hall Hone.
  rewrite parseProperty_compositions, Hall, Hone by done.
  rewrite parseOneOf_loop, Hone. cbn [default].
  destruct (parsePropertiesLoop Do _) as [t| | |] eqn:Hloop; cbn; try done.
  intros [= <-]. exists t. split; [done|]. intros k.
  rewrite (parsePropertiesLoop_lookup _ _ _ k Hloop), mergeSchemas_props.
  reflexivity.
Qed.

Lemma parseProperty_oneOf_entries_witness :
  (noRule1to5 oneOfOnly = true ∧ AllOf oneOfOnly = None ∧
   OneOf oneOfOnly = Some [branchA1; branchA2B3] ∧
   parseProperty Do "backend" oneOfOnly ∅ =
     Ok {[ "backend" := VMap {[ "a" := VNum 2; "b" := VNum 3 ]} ]}) ∧
  ∃ t, ({[ "backend" := VMap {[ "a" := VNum 2; "b" := VNum 3 ]} ]}
          : gmap string value) = <["backend" := VMap t]> ∅ ∧
       ∀ k, t !! k = produced k (lastDefinition k oneOfOnly [branchA1; branchA2B3]).
Proof.
  assert (H : parseProperty Do "backend" oneOfOnly ∅ =
                Ok {[ "backend" := VMap {[ "a" := VNum 2; "b" := VNum 3 ]} ]})
    by (vm_compute; reflexivity).
  split; [by repeat split|].
  exact (parseProperty_oneOf_entries "backend" oneOfOnly ∅ _
           [branchA1; branchA2B3] eq_refl eq_refl eq_refl H).
Defined.

(** X13. [mergeSchemas] loses no property: a key is defined in the merged
    schema exactly when the base or one of the branches defines it. *)
Theorem mergeSchemas_keys (base : Schema) (branches : list Schema) (key : string) :
  is_Some (props (mergeSchemas (Some base) branches) !! key) ↔
  is_Some (props base !! key) ∨
  ∃ branch, branch ∈ branches ∧ is_Some (props branch !! key).
Proof.
  rewrite mergeSchemas_props. cbn [default].
  destruct (last (omap _ branches)) as [p|] eqn:Hlast.
  - split; [|by eauto]. intros _. right.
    apply last_Some in Hlast as [l' Hl].
    assert (Hin : p ∈ omap (λ schema, props schema !! key) branches)
      by (rewrite Hl; apply elem_of_app; right; by left).
    apply list_elem_of_omap in Hin as (b & Hin & Hk). eauto.
  - split; [by left|]. intros [H|(b & Hin & [p Hp])]; [done|].
    apply last_None in Hlast.
    assert (Hin' : p ∈ omap (λ schema, props schema !! key) branches)
      by (apply list_elem_of_omap; eauto).
    rewrite Hlast in Hin'. by apply not_elem_of_nil in Hin'.
Qed.

Lemma mergeSchemas_keys_witness :
  is_Some (props (mergeSchemas (Some branchA1) [branchA2B3]) !! "b").
Proof.
  apply (mergeSchemas_keys branchA1 [branchA2B3] "b"). right.
  exists branchA2B3. split; [by left|].
  by exists (setDefault (VNum 3) emptySchema).
Defined.

(** ** The recursion budget *)

(** X14. The recursion of [parseProperties] is bounded by the nesting of
    the schema, the merges of [oneOf] and [anyOf] included: with any budget
    above the depth of the node the run comes to an end (it returns, fails
    or panics) and its outcome is the same. *)
Theorem parseProperties_budget (n : nat) (tempNode : option Schema) :
  depthOpt tempNode < n →
  parseProperties n tempNode ≠ Diverge ∧
  parseProperties n tempNode = Do tempNode.
Proof.
  intros Hn. split; [by apply parseProperties_terminates|by apply Do_enough].
Qed.

Lemma parseProperties_budget_witness :
  depthOpt (Some oneOfOnly) < 4 ∧
  parseProperties 4 (Some oneOfOnly) ≠ Diverge ∧
  parseProperties 4 (Some oneOfOnly) = Do (Some oneOfOnly).
Proof.
  assert (H : depthOpt (Some oneOfOnly) < 4) by (vm_compute; lia).
  split; [exact H|]. exact (parseProperties_budget 4 (Some oneOfOnly) H).
Defined.

(** ** The overlay of the digests *)

Lemma vsize_lookup (m : gmap string value) (key : string) (v : value) :
  m !! key = Some v → vsize v < vsize (VMap m).
Proof.
  cbn [vsize]. intros H. apply Nat.lt_succ_r. revert key v H.
  apply (map_fold_weak_ind
           (λ (r : nat) (m : gmap string value),
              ∀ key v, m !! key = Some v → vsize v ≤ r)).
  - intros key v. by rewrite lookup_empty.
  - intros i x m' r Hi IH key v.
    destruct (decide (i = key)) as [->|Hne].
    + rewrite lookup_insert_eq. intros [= ->]. lia.
    + rewrite lookup_insert_ne by done. intros H%IH. lia.
Qed.

(** Merging a mapping a second time changes nothing, and neither does
    merging a mapping into itself. *)
Lemma deepMerge_again (n : nat) (src : gmap string value) :
  vsize (VMap src) ≤ n →
  (∀ dst, deepMerge (deepMerge dst src) src = deepMerge dst src) ∧
  deepMerge src src = src.
Proof.
  revert src. induction n as [|n IH]; intros src Hn; [cbn in Hn; lia|].
  assert (Hsub : ∀ key srcMap, src !! key = Some (VMap srcMap) →
                               vsize (VMap srcMap) ≤ n).
  { intros key srcMap H%vsize_lookup. lia. }
  split; [intros dst|]; apply map_eq; intros key;
    rewrite !deepMerge_lookup_eq;
    destruct (src !! key) as [srcElem|] eqn:Hkey; try done; f_equal.
  - destruct srcElem as [| | | | |srcMap];
      try (by destruct (dst !! key) as [[]|]).
    destruct (IH srcMap (Hsub _ _ Hkey)) as [Hdst Hself].
    destruct (dst !! key) as [[| | | | |dstMap]|]; by rewrite ?Hdst, ?Hself.
  - destruct srcElem as [| | | | |srcMap]; try done.
    destruct (IH srcMap (Hsub _ _ Hkey)) as [_ Hself]. by rewrite Hself.
Qed.

(** X15. [applyDigests] is idempotent: on a tree that already went through
    the overlay of a digest table, the overlay of the same table changes
    nothing. *)
Theorem applyDigests_idempotent (digests values : gmap string value) :
  applyDigests digests (applyDigests digests values) =
  applyDigests digests values.
Proof.
  unfold applyDigests, Merge.
  exact (proj1 (deepMerge_again _ _ (Nat.le_refl _)) values).
Qed.

(** The table under [global.modulesImages.digests] after the overlay. *)
Lemma applyDigests_digests (digests values : gmap string value) :
  vget "digests" (vget "modulesImages" (applyDigests digests values !! "global")) =
    Some (VMap match vget "digests" (vget "modulesImages" (values !! "global")) with
               | Some (VMap prior) => deepMerge prior digests
               | _ => digests
               end).
Proof.
  unfold applyDigests, Merge. rewrite deepMerge_singleton_eq.
  destruct (values !! "global") as [[| | | | |g]|]; cbn;
    try (by rewrite !lookup_singleton_eq).
  rewrite deepMerge_singleton_eq.
  destruct (g !! "modulesImages") as [[| | | | |m]|]; cbn;
    try (by rewrite !lookup_singleton_eq).
  rewrite deepMerge_singleton_eq.
  by destruct (m !! "digests") as [[]|].
Qed.

Lemma applyDigests_other (digests values : gmap string value) (key : string) :
  key ≠ "global" → applyDigests digests values !! key = values !! key.
Proof. intros Hne. unfold applyDigests, Merge. by rewrite deepMerge_singleton_ne. Qed.

(** Where the prior entry and the supplied entry of a module are both
    mappings, the supplied entry does not replace the prior one: the images
    of both are there after the overlay. *)
Lemma applyDigests_nested_tables :
  vget "myModule"
       (vget "digests"
             (vget "modulesImages"
                   (applyDigests nestedDigestTable valuesWithNestedDigests
                      !! "global"))) =
    Some (VMap {[ "oldImage" := VStr "sha256:old";
                  "newImage" := VStr "sha256:new" ]}).
Proof. vm_compute. reflexivity. Qed.

(** X16. After [applyDigests], every entry of the supplied table that is
    not itself a mapping is found, as supplied, under
    [global.modulesImages.digests], whatever the tree held before; and the
    overlay removes no top-level key of the tree. *)
Theorem applyDigests_supplied (digests values : gmap string value)
        (name : string) (digest : value) :
  digests !! name = Some digest → isMap digest = false →
  (∃ table, vget "digests"
              (vget "modulesImages" (applyDigests digests values !! "global")) =
            Some (VMap table) ∧ table !! name = Some digest) ∧
  ∀ key, is_Some (values !! key) → is_Some (applyDigests digests values !! key).
Proof.
  intros Hname Hscalar. split.
  - eexists. split; [apply applyDigests_digests|].
    destruct (vget "digests" _) as [[| | | | |prior]|]; try done.
    rewrite deepMerge_lookup_eq, Hname.
    by destruct digest, (prior !! name) as [[]|].
  - intros key Hkey. destruct (decide (key = "global")) as [->|Hne].
    + unfold applyDigests, Merge. rewrite deepMerge_singleton_eq. eauto.
    + by rewrite applyDigests_other.
Qed.

Lemma applyDigests_supplied_witness :
  (digestTable !! "img" = Some (VStr "sha256:abc") ∧
   isMap (VStr "sha256:abc") = false) ∧
  (∃ table, vget "digests"
              (vget "modulesImages"
                    (applyDigests digestTable valuesWithDigests !! "global")) =
            Some (VMap table) ∧ table !! "img" = Some (VStr "sha256:abc")) ∧
  ∀ key, is_Some (valuesWithDigests !! key) →
         is_Some (applyDigests digestTable valuesWithDigests !! key).
Proof.
  split; [by split|].
  exact (applyDigests_supplied digestTable valuesWithDigests "img"
           (VStr "sha256:abc") eq_refl eq_refl).
Defined.

(** ** The faults of the generator *)

Lemma ownFailure_bind {A B} (x : outcome A) (f : A → outcome B) :
  ownFailure x → (∀ a, ownFailure (f a)) → ownFailure (x ≫= f).
Proof. intros Hx Hf. destruct x; cbn; by try apply Hf. Qed.

Lemma Merge_ownFailure (dst : gmap string value) (src : value) :
  notNil src = true → ownFailure (Merge dst src).
Proof. by destruct src. Qed.

Lemma parseProperty_ownFailure
      (rec : option Schema → outcome (option (gmap string value)))
      (key : string) (prop : Schema) (result : gmap string value) :
  (∀ x, depthOpt x ≤ depth prop → ownFailure (rec x)) →
  ownFailure (parseProperty rec key prop result).
Proof.
  intros Hrec.
  pose proof (Hrec (Some prop) (le_n _)) as Hself.
  pose proof (Hrec (Some (mergeSchemas (Some prop) (default [] (OneOf prop))))
                   (depth_mergeSchemas _ _ (depth_oneOf prop))) as Hone.
  pose proof (Hrec (Some (mergeSchemas (Some prop) (default [] (AnyOf prop))))
                   (depth_mergeSchemas _ _ (depth_anyOf prop))) as Hany.
  assert (Hitems : ∀ items schemas,
             Items prop = Some (Some items, schemas) →
             ownFailure (rec (Some items))).
  { intros items schemas Hi. apply Hrec.
    pose proof (depth_items _ _ _ Hi). cbn. lia. }
  unfold parseProperty, parseExamples, parseEnum, parseObject, parseArray,
    parseOneOf, parseAnyOf, deepcopy_Copy, hasItemsSchema.
  repeat match goal with
         | |- ownFailure (_ ≫= _) => apply ownFailure_bind; [|intros ?]
         | |- ownFailure (Merge _ _) => apply Merge_ownFailure
         | |- ownFailure (Ok _) => exact I
         | |- ownFailure (Panic indexOutOfRange) => reflexivity
         | |- ownFailure (rec _) => by eauto
         | |- context [match ?x with _ => _ end] => destruct x eqn:?
         end; simplify_eq/=; try done; try lia.
Qed.

Lemma parsePropertiesLoop_ownFailure
      (rec : option Schema → outcome (option (gmap string value)))
      (node : Schema) :
  (∀ x, depthOpt x < depth node → ownFailure (rec x)) →
  ownFailure (parsePropertiesLoop rec node).
Proof.
  intros Hrec. unfold parsePropertiesLoop.
  apply (map_fold_weak_ind
           (λ (r : outcome (gmap string value)) (m : gmap string Schema),
              m ⊆ props node → ownFailure r)); [done| |done].
  intros i x m r Hi IH Hsub.
  assert (Hx : props node !! i = Some x)
    by (eapply lookup_weaken; [apply lookup_insert_eq|done]).
  apply ownFailure_bind.
  - apply IH. etrans; [|exact Hsub]. by apply insert_subseteq.
  - intros result. apply parseProperty_ownFailure. intros y Hy. apply Hrec.
    pose proof (depth_property _ _ _ Hx). lia.
Qed.

Lemma parseProperties_ownFailure (n : nat) (x : option Schema) :
  depthOpt x < n → ownFailure (parseProperties n x).
Proof.
  revert x. induction n as [|n IH]; intros x Hn; [lia|].
  destruct x as [node|]; [|done].
  rewrite parseProperties_S.
  apply ownFailure_bind; [|done].
  apply parsePropertiesLoop_ownFailure.
  intros y Hy. apply IH. cbn in Hn. lia.
Qed.

Lemma Do_ownFailure (rootSchema : option Schema) : ownFailure (Do rootSchema).
Proof. apply parseProperties_ownFailure. lia. Qed.

(** X17. Whatever the schema, the generator fails in two ways only: with
    the error of [mergo.Merge] on arguments of different types, and with the
    panic of an index out of range.  The nil dereference of
    [prop.Items.Schema] in [parseArray] is never reached, and the nil
    arguments error of [mergo.Merge] never comes back. *)
Theorem Do_failures (rootSchema : option Schema) :
  (∀ err, Do rootSchema = Err err → err = ErrDifferentArgumentsTypes) ∧
  (∀ msg, Do rootSchema = Panic msg → msg = indexOutOfRange) ∧
  Do rootSchema ≠ Diverge.
Proof.
  pose proof (Do_ownFailure rootSchema) as H.
  repeat split; [intros err Heq|intros msg Heq|intros Heq];
    by rewrite Heq in H.
Qed.

Lemma Do_failures_witness :
  Do (Some withScalarExample) = Err ErrDifferentArgumentsTypes ∧
  ErrDifferentArgumentsTypes = ErrDifferentArgumentsTypes.
Proof.
  assert (H : Do (Some withScalarExample) = Err ErrDifferentArgumentsTypes)
    by (vm_compute; reflexivity).
  split; [exact H|].
  exact (proj1 (Do_failures (Some withScalarExample)) _ H).
Defined.



(** ** The entry point *)

Lemma GetModulesImagesDigests_Ok
      (DefaultImagesDigests : gmap string value)
      (statDigestFile : string → option Z)
      (getModulesImagesDigestsFromLocalPath : string → gmap string value + error)
      (modulePath : string) (digests : gmap string value) :
  GetModulesImagesDigests DefaultImagesDigests statDigestFile
    getModulesImagesDigestsFromLocalPath modulePath = Ok digests →
  ((statDigestFile modulePath = None ∨ statDigestFile modulePath = Some 0%Z) ∧
   digests = DefaultImagesDigests) ∨
  (∃ size, statDigestFile modulePath = Some size ∧ size ≠ 0%Z ∧
           getModulesImagesDigestsFromLocalPath modulePath = inl digests).
Proof.
  unfold GetModulesImagesDigests.
  destruct (statDigestFile modulePath) as [size|]; [|intros [= <-]; eauto].
  case_bool_decide as Hsize; [subst size; intros [= <-]; eauto|].
  destruct (getModulesImagesDigestsFromLocalPath modulePath); [|done].
  intros [= <-]. right. eauto.
Qed.

Lemma GetModulesImagesDigests_cases
      (DefaultImagesDigests : gmap string value)
      (statDigestFile : string → option Z)
      (getModulesImagesDigestsFromLocalPath : string → gmap string value + error)
      (modulePath : string) :
  (∃ digests, GetModulesImagesDigests DefaultImagesDigests statDigestFile
                getModulesImagesDigestsFromLocalPath modulePath = Ok digests) ∨
  (∃ size err, statDigestFile modulePath = Some size ∧ size ≠ 0%Z ∧
               getModulesImagesDigestsFromLocalPath modulePath = inr err ∧
               GetModulesImagesDigests DefaultImagesDigests statDigestFile
                 getModulesImagesDigestsFromLocalPath modulePath = Err err).
Proof.
  unfold GetModulesImagesDigests.
  destruct (statDigestFile modulePath) as [size|]; [|eauto].
  case_bool_decide as Hsize; [eauto|].
  destruct (getModulesImagesDigestsFromLocalPath modulePath) as [t|err]; [eauto|].
  right. by exists size, err.
Qed.

(** What [ComposeValuesFromSchemas] returns does not depend on the API
    versions that the default capabilities hold when it is called. *)
Lemma ComposeValuesFromSchemas_outcome
      (ChartMetadata : Type)
      (NewValuesValidator : string → string → option ValuesValidator + error)
      (ToLowerCamel : string → string)
      (DefaultImagesDigests : gmap string value)
      (statDigestFile : string → option Z)
      (getModulesImagesDigestsFromLocalPath : string → gmap string value + error)
      (m : Module ChartMetadata) (apiVersions : list string) :
  (ComposeValuesFromSchemas ChartMetadata NewValuesValidator ToLowerCamel
     DefaultImagesDigests statDigestFile
     getModulesImagesDigestsFromLocalPath m apiVersions).1 =
  match NewValuesValidator (GetName m) (GetPath m) with
  | inr err => Err (ErrorfWrap "schemas load: " err)
  | inl None => Ok None
  | inl (Some valueValidator) =>
      match ModuleSchemaStorages valueValidator !! GetName m with
      | None => Ok None
      | Some schema =>
          match Schemas schema with
          | None => Ok None
          | Some _ =>
              match schemaAt schema "values" with
              | Some (Some values) =>
                  rawValues ←
                    wrapError "generate values: "
                      (Do (Some (combinedSchema (ToLowerCamel (GetName m)) values
                                   (schemaAt (GlobalSchemaStorage valueValidator)
                                             "values"))));
                  digests ← GetModulesImagesDigests DefaultImagesDigests
                              statDigestFile getModulesImagesDigestsFromLocalPath
                              (GetPath m);
                  Ok (Some (top m (applyDigests digests (default ∅ rawValues))))
              | _ =>
                  Err (Errorf ("cannot find openapi values schema for module "
                                 ++ GetName m))
              end
          end
      end
  end.
Proof.
  unfold ComposeValuesFromSchemas.
  destruct (NewValuesValidator _ _) as [[valueValidator|]|]; try reflexivity.
  destruct (ModuleSchemaStorages valueValidator !! GetName m) as [storage|];
    [|reflexivity].
  destruct (Schemas storage) as [schemas|]; [|reflexivity].
  destruct (schemaAt storage "values") as [[values|]|]; try reflexivity.
  unfold composeFromValues, combinedSchema. cbv zeta.
  destruct (Do _) as [rawValues| | |]; reflexivity.
Qed.

(** The API versions that [ComposeValuesFromSchemas] leaves: one entry
    more when the generator returned (whether the digests could then be
    read or not), the versions it was given in every other case. *)
Lemma ComposeValuesFromSchemas_versions
      (ChartMetadata : Type)
      (NewValuesValidator : string → string → option ValuesValidator + error)
      (ToLowerCamel : string → string)
      (DefaultImagesDigests : gmap string value)
      (statDigestFile : string → option Z)
      (getModulesImagesDigestsFromLocalPath : string → gmap string value + error)
      (m : Module ChartMetadata) (apiVersions : list string) :
  (ComposeValuesFromSchemas ChartMetadata NewValuesValidator ToLowerCamel
     DefaultImagesDigests statDigestFile
     getModulesImagesDigestsFromLocalPath m apiVersions).2 =
  match NewValuesValidator (GetName m) (GetPath m) with
  | inl (Some valueValidator) =>
      match ModuleSchemaStorages valueValidator !! GetName m with
      | Some schema =>
          match schemaAt schema "values" with
          | Some (Some values) =>
              match Do (Some (combinedSchema (ToLowerCamel (GetName m)) values
                                (schemaAt (GlobalSchemaStorage valueValidator)
                                          "values"))) with
              | Ok _ => (apiVersions ++ ["autoscaling.k8s.io/v1/VerticalPodAutoscaler"])%list
              | _ => apiVersions
              end
          | _ => apiVersions
          end
      | None => apiVersions
      end
  | _ => apiVersions
  end.
Proof.
  unfold ComposeValuesFromSchemas.
  destruct (NewValuesValidator _ _) as [[valueValidator|]|]; try reflexivity.
  destruct (ModuleSchemaStorages valueValidator !! GetName m) as [storage|];
    [|reflexivity].
  unfold schemaAt at 1 3.
  destruct (Schemas storage) as [schemas|]; [|reflexivity].
  cbn [mbind option_bind].
  destruct (schemas !! "values") as [[values|]|]; try reflexivity.
  unfold composeFromValues, combinedSchema. cbv zeta.
  destruct (Do _) as [rawValues| | |]; reflexivity.
Qed.

(** What a successful call went through: the schemas were loaded, the
    module has a ["values"] schema, the generator returned a mapping on the
    combined schema, the digests were read; and the API versions of the
    default capabilities were extended. *)
Lemma ComposeValuesFromSchemas_Ok
      (ChartMetadata : Type)
      (NewValuesValidator : string → string → option ValuesValidator + error)
      (ToLowerCamel : string → string)
      (DefaultImagesDigests : gmap string value)
      (statDigestFile : string → option Z)
      (getModulesImagesDigestsFromLocalPath : string → gmap string value + error)
      (m : Module ChartMetadata) (apiVersions : list string)
      (ctx : RenderContext ChartMetadata) :
  (ComposeValuesFromSchemas ChartMetadata NewValuesValidator ToLowerCamel
     DefaultImagesDigests statDigestFile
     getModulesImagesDigestsFromLocalPath m apiVersions).1 = Ok (Some ctx) →
  ∃ valueValidator storage schemas values rawValues digests,
    NewValuesValidator (GetName m) (GetPath m) = inl (Some valueValidator) ∧
    ModuleSchemaStorages valueValidator !! GetName m = Some storage ∧
    Schemas storage = Some schemas ∧
    schemas !! "values" = Some (Some values) ∧
    parsePropertiesLoop Do
      (combinedSchema (ToLowerCamel (GetName m)) values
         (schemaAt (GlobalSchemaStorage valueValidator) "values")) = Ok rawValues ∧
    GetModulesImagesDigests DefaultImagesDigests statDigestFile
      getModulesImagesDigestsFromLocalPath (GetPath m) = Ok digests ∧
    ctx = top m (applyDigests digests rawValues) ∧
    (ComposeValuesFromSchemas ChartMetadata NewValuesValidator ToLowerCamel
       DefaultImagesDigests statDigestFile
       getModulesImagesDigestsFromLocalPath m apiVersions).2 =
      (apiVersions ++ ["autoscaling.k8s.io/v1/VerticalPodAutoscaler"])%list.
Proof.
  rewrite ComposeValuesFromSchemas_outcome, ComposeValuesFromSchemas_versions.
  intros H.
  destruct (NewValuesValidator _ _) as [[valueValidator|]|]; try done.
  destruct (ModuleSchemaStorages valueValidator !! GetName m) as [storage|]
    eqn:Hstorage; [|done].
  destruct (Schemas storage) as [schemas|] eqn:Hschemas; [|done].
  assert (Hat : schemaAt storage "values" = schemas !! "values")
    by (unfold schemaAt; by rewrite Hschemas).
  rewrite Hat in H |- *. clear Hat.
  destruct (schemas !! "values") as [[values|]|] eqn:Hvalues; try done.
  rewrite Do_loop in H |- *.
  destruct (parsePropertiesLoop Do _) as [rawValues| | |] eqn:Hloop; try done.
  cbn [fmap outcome_fmap wrapError mbind outcome_bind default] in H |- *.
  destruct (GetModulesImagesDigests _ _ _ _) as [digests| | |] eqn:Hdigests;
    try done.
  cbn [mbind outcome_bind] in H. injection H as <-.
  by exists valueValidator, storage, schemas, values, rawValues, digests.
Qed.

(** X19. [ComposeValuesFromSchemas] returns no values and no error in
    three cases only: the loader gives no validator, the validator has no
    schema storage for the module, or the storage of the module has no
    schemas.  In these cases the API versions of the default capabilities
    are left as they were. *)
Theorem ComposeValuesFromSchemas_nil_values
        (ChartMetadata : Type)
        (NewValuesValidator : string → string → option ValuesValidator + error)
        (ToLowerCamel : string → string)
        (DefaultImagesDigests : gmap string value)
        (statDigestFile : string → option Z)
        (getModulesImagesDigestsFromLocalPath : string → gmap string value + error)
        (m : Module ChartMetadata) (apiVersions : list string) :
  ((ComposeValuesFromSchemas ChartMetadata NewValuesValidator ToLowerCamel
      DefaultImagesDigests statDigestFile
      getModulesImagesDigestsFromLocalPath m apiVersions).1 = Ok None ↔
   NewValuesValidator (GetName m) (GetPath m) = inl None ∨
   ∃ valueValidator,
     NewValuesValidator (GetName m) (GetPath m) = inl (Some valueValidator) ∧
     (ModuleSchemaStorages valueValidator !! GetName m = None ∨
      ∃ storage, ModuleSchemaStorages valueValidator !! GetName m = Some storage ∧
                 Schemas storage = None)) ∧
  ((ComposeValuesFromSchemas ChartMetadata NewValuesValidator ToLowerCamel
      DefaultImagesDigests statDigestFile
      getModulesImagesDigestsFromLocalPath m apiVersions).1 = Ok None →
   (ComposeValuesFromSchemas ChartMetadata NewValuesValidator ToLowerCamel
      DefaultImagesDigests statDigestFile
      getModulesImagesDigestsFromLocalPath m apiVersions).2 = apiVersions).
Proof.
  assert (Hcases :
    (ComposeValuesFromSchemas ChartMetadata NewValuesValidator ToLowerCamel
       DefaultImagesDigests statDigestFile
       getModulesImagesDigestsFromLocalPath m apiVersions).1 = Ok None →
    NewValuesValidator (GetName m) (GetPath m) = inl None ∨
    ∃ valueValidator,
      NewValuesValidator (GetName m) (GetPath m) = inl (Some valueValidator) ∧
      (ModuleSchemaStorages valueValidator !! GetName m = None ∨
       ∃ storage, ModuleSchemaStorages valueValidator !! GetName m = Some storage ∧
                  Schemas storage = None));
    [|split; [split; [exact Hcases|]|intros H%Hcases]].
  - rewrite ComposeValuesFromSchemas_outcome.
    intros H.
    destruct (NewValuesValidator _ _) as [[valueValidator|]|]; [|by left|done].
    right. exists valueValidator. split; [done|].
    destruct (ModuleSchemaStorages valueValidator !! GetName m) as [storage|];
      [|by left].
    right. exists storage. split; [done|].
    destruct (Schemas storage) as [schemas|] eqn:Hschemas; [|done]. exfalso.
    unfold schemaAt at 1 in H. rewrite Hschemas in H. cbn [mbind option_bind] in H.
    destruct (schemas !! "values") as [[values|]|]; try done.
    destruct (Do _) as [rawValues| | |]; try done.
    cbn [wrapError mbind outcome_bind] in H.
    by destruct (GetModulesImagesDigests _ _ _ _).
  - rewrite ComposeValuesFromSchemas_outcome.
    intros [-> | (valueValidator & -> & [-> | (storage & -> & ->)])]; done.
  - rewrite ComposeValuesFromSchemas_versions. unfold schemaAt.
    destruct H as [-> | (valueValidator & -> & [-> | (storage & -> & ->)])];
      done.
Qed.

Lemma ComposeValuesFromSchemas_nil_values_witness :
  (composeWith noSchemas (λ _, None)
               (λ _, inr (ErrExternal "no digest file"))).1 = Ok None ∧
  (composeWith noSchemas (λ _, None)
               (λ _, inr (ErrExternal "no digest file"))).2 = ["v1"].
Proof.
  pose proof (ComposeValuesFromSchemas_nil_values unit noSchemas
                (λ _, "myModule") digestTable (λ _, None)
                (λ _, inr (ErrExternal "no digest file")) myModule ["v1"])
    as [Hiff Hversions].
  pose proof (proj2 Hiff (or_introl eq_refl)) as Hnil.
  exact (conj Hnil (Hversions Hnil)).
Defined.

(** X20. [ComposeValuesFromSchemas] always comes to an end, and an error
    it returns is one of four: the error of the loader behind
    ["schemas load: "], the missing ["values"] schema of the module, the
    error of the merge of an example behind ["generate values: "], or the
    error of reading a digest file that is there and not empty, as it is. *)
Theorem ComposeValuesFromSchemas_errors
        (ChartMetadata : Type)
        (NewValuesValidator : string → string → option ValuesValidator + error)
        (ToLowerCamel : string → string)
        (DefaultImagesDigests : gmap string value)
        (statDigestFile : string → option Z)
        (getModulesImagesDigestsFromLocalPath : string → gmap string value + error)
        (m : Module ChartMetadata) (apiVersions : list string) :
  (ComposeValuesFromSchemas ChartMetadata NewValuesValidator ToLowerCamel
     DefaultImagesDigests statDigestFile
     getModulesImagesDigestsFromLocalPath m apiVersions).1 ≠ Diverge ∧
  ∀ err,
    (ComposeValuesFromSchemas ChartMetadata NewValuesValidator ToLowerCamel
       DefaultImagesDigests statDigestFile
       getModulesImagesDigestsFromLocalPath m apiVersions).1 = Err err →
    (∃ cause, NewValuesValidator (GetName m) (GetPath m) = inr cause ∧
              err = ErrorfWrap "schemas load: " cause) ∨
    err = Errorf ("cannot find openapi values schema for module " ++ GetName m) ∨
    err = ErrorfWrap "generate values: " ErrDifferentArgumentsTypes ∨
    ∃ size, statDigestFile (GetPath m) = Some size ∧ size ≠ 0%Z ∧
            getModulesImagesDigestsFromLocalPath (GetPath m) = inr err.
Proof.
  rewrite ComposeValuesFromSchemas_outcome.
  destruct (NewValuesValidator _ _) as [[valueValidator|]|cause];
    [|done|split; [done|intros err [= <-]; left; eauto]].
  destruct (ModuleSchemaStorages valueValidator !! GetName m) as [storage|];
    [|done].
  destruct (Schemas storage) as [schemas|] eqn:Hschemas; [|done].
  unfold schemaAt at 1 3. rewrite Hschemas. cbn [mbind option_bind].
  destruct (schemas !! "values") as [[values|]|];
    [|split; [done|intros err [= <-]; right; by left]..].
  pose proof (Do_ownFailure
    (Some (combinedSchema (ToLowerCamel (GetName m)) values
             (schemaAt (GlobalSchemaStorage valueValidator) "values")))) as Hdo.
  destruct (Do _) as [rawValues|cause|msg|]; cbn in Hdo; [| | |done].
  - cbn.
    destruct (GetModulesImagesDigests_cases DefaultImagesDigests statDigestFile
                getModulesImagesDigestsFromLocalPath (GetPath m))
      as [[digests ->]|(size & cause & Hstat & Hsize & Hread & ->)]; cbn.
    + done.
    + split; [done|]. intros err [= <-]. do 3 right. eauto.
  - subst cause. split; [done|]. intros err [= <-]. right. right. by left.
  - done.
Qed.

Lemma ComposeValuesFromSchemas_errors_witness :
  (composeWith loadFails (λ _, None)
               (λ _, inr (ErrExternal "no digest file"))).1 =
    Err (ErrorfWrap "schemas load: "
           (ErrExternal "open openapi/values.yaml: permission denied")) ∧
  ((∃ cause, loadFails (GetName myModule) (GetPath myModule) = inr cause ∧
             ErrorfWrap "schemas load: "
               (ErrExternal "open openapi/values.yaml: permission denied") =
             ErrorfWrap "schemas load: " cause) ∨
   ErrorfWrap "schemas load: "
     (ErrExternal "open openapi/values.yaml: permission denied") =
   Errorf ("cannot find openapi values schema for module " ++ GetName myModule) ∨
   ErrorfWrap "schemas load: "
     (ErrExternal "open openapi/values.yaml: permission denied") =
   ErrorfWrap "generate values: " ErrDifferentArgumentsTypes ∨
   ∃ size, (λ _ : string, @None Z) (GetPath myModule) = Some size ∧ size ≠ 0%Z ∧
           (λ _ : string, @inr (gmap string value) error
                            (ErrExternal "no digest file")) (GetPath myModule) =
           inr (ErrorfWrap "schemas load: "
                  (ErrExternal "open openapi/values.yaml: permission denied"))).
Proof.
  split; [reflexivity|].
  exact (proj2 (ComposeValuesFromSchemas_errors unit loadFails (λ _, "myModule")
                  digestTable (λ _, None)
                  (λ _, inr (ErrExternal "no digest file")) myModule ["v1"])
               _ eq_refl).
Defined.

Lemma applyDigests_table (digests values : gmap string value) :
  ∃ table,
    vget "digests" (vget "modulesImages" (applyDigests digests values !! "global")) =
      Some (VMap table) ∧
    ∀ name digest, digests !! name = Some digest → isMap digest = false →
                   table !! name = Some digest.
Proof.
  eexists. split; [apply applyDigests_digests|]. intros name digest Hname Hscalar.
  destruct (vget "digests" _) as [[| | | | |prior]|]; try done.
  rewrite deepMerge_lookup_eq, Hname.
  by destruct digest, (prior !! name) as [[]|].
Qed.

Lemma Do_setDefault (d : value) (values : Schema) :
  Do (Some (setDefault d values)) = Do (Some values).
Proof.
  rewrite !Do_loop.
  by rewrite (parsePropertiesLoop_props Do (setDefault d values) values).
Qed.

(** What a schema whose default has been set to the empty mapping resolves
    to, when it has no examples. *)
Lemma resolve_empty_default (key : string) (values : Schema) :
  hasExamples values = false →
  resolve Do key (setDefault (VMap ∅) values) =
    if negb (hasEnum values) && isObject values
    then (λ t, Some (mapValue t)) <$> Do (Some values)
    else Ok (Some (VMap ∅)).
Proof.
  intros Hex. unfold resolve, parseProperty, parseEnum, parseObject.
  rewrite Do_setDefault.
  unfold hasExamples, hasEnum, isObject in *.
  destruct values as [type properties items enum d extensions oneOf allOf anyOf].
  cbn [setDefault Extensions Enum Type_ Default] in *. rewrite Hex.
  destruct enum as [|first enum]; cbn [length notNil negb andb].
  - rewrite bool_decide_eq_false_2 by lia. cbn [negb andb].
    destruct (Contains type ObjectKey).
    + destruct (Do _); cbn; by rewrite ?lookup_insert_eq.
    + cbn. by rewrite lookup_insert_eq.
  - rewrite bool_decide_eq_true_2 by (cbn; lia). cbn.
    by rewrite lookup_insert_eq.
Qed.

Lemma combinedSchema_lookup (camelizedModuleName : string) (values : Schema)
      (global : option (option Schema)) (key : string) :
  key ≠ "global" →
  props (combinedSchema camelizedModuleName values global) !! key =
    if decide (key = camelizedModuleName)
    then Some (setDefault (VMap ∅) values) else None.
Proof.
  intros Hne.
  change (props (combinedSchema camelizedModuleName values global))
    with (<["global" := setDefault (VMap ∅)
                          match global with
                          | Some (Some values) => values
                          | _ => emptySchema
                          end]>
            ({[ camelizedModuleName := setDefault (VMap ∅) values ]}
               : gmap string Schema)).
  rewrite lookup_insert_ne by done.
  destruct (decide (key = camelizedModuleName)) as [->|Hkey].
  - apply lookup_singleton_eq.
  - by apply lookup_singleton_ne.
Qed.

(** X21. The context of a successful call: the chart is the metadata of
    the module; the release carries the name and the namespace of the
    module, is both an install and an upgrade, at revision 0, of service
    Helm.  The values have no top-level key but the camel-cased module name
    and ["global"], and under [global.modulesImages.digests] they hold a
    mapping with every entry of the digest table that is not itself a
    mapping; the table is the built-in one when the digest file is missing
    or empty, and the one read from the file otherwise.

    The capabilities of the context are the pointer
    [chartutil.DefaultCapabilities], and the call writes to the object
    behind it: its API versions are, after the call, those it had before
    followed by the VerticalPodAutoscaler version.  They are not restored.
    Called again on the capabilities it left, the function returns the same
    context and leaves the VerticalPodAutoscaler version twice, and both
    contexts, holding the same pointer, show it twice. *)
Theorem ComposeValuesFromSchemas_context
        (ChartMetadata : Type)
        (NewValuesValidator : string → string → option ValuesValidator + error)
        (ToLowerCamel : string → string)
        (DefaultImagesDigests : gmap string value)
        (statDigestFile : string → option Z)
        (getModulesImagesDigestsFromLocalPath : string → gmap string value + error)
        (m : Module ChartMetadata) (apiVersions : list string)
        (ctx : RenderContext ChartMetadata) :
  let run := ComposeValuesFromSchemas ChartMetadata NewValuesValidator
               ToLowerCamel DefaultImagesDigests statDigestFile
               getModulesImagesDigestsFromLocalPath m in
  (run apiVersions).1 = Ok (Some ctx) →
  Chart ctx = GetMetadata m ∧
  Release ctx = {| Name := GetName m; Namespace := GetNamespace m;
                   IsUpgrade := true; IsInstall := true;
                   Revision := 0; Service := "Helm" |} ∧
  (∀ key, is_Some (Values ctx !! key) →
          key = ToLowerCamel (GetName m) ∨ key = "global") ∧
  (∃ digests table,
     (((statDigestFile (GetPath m) = None ∨
        statDigestFile (GetPath m) = Some 0%Z) ∧
       digests = DefaultImagesDigests) ∨
      (∃ size, statDigestFile (GetPath m) = Some size ∧ size ≠ 0%Z ∧
               getModulesImagesDigestsFromLocalPath (GetPath m) = inl digests)) ∧
     vget "digests" (vget "modulesImages" (Values ctx !! "global")) =
       Some (VMap table) ∧
     ∀ name digest, digests !! name = Some digest → isMap digest = false →
                    table !! name = Some digest) ∧
  Capabilities ctx = DefaultCapabilities ∧
  APIVersions (Capabilities ctx) (run apiVersions).2 =
    (apiVersions ++ ["autoscaling.k8s.io/v1/VerticalPodAutoscaler"])%list ∧
  (run (run apiVersions).2).1 = Ok (Some ctx) ∧
  APIVersions (Capabilities ctx) (run (run apiVersions).2).2 =
    (apiVersions ++ ["autoscaling.k8s.io/v1/VerticalPodAutoscaler";
                     "autoscaling.k8s.io/v1/VerticalPodAutoscaler"])%list.
Proof.
  intros run H.
  assert (Hagain : (run (run apiVersions).2).1 = Ok (Some ctx)).
  { unfold run in *. by rewrite ComposeValuesFromSchemas_outcome,
      <- (ComposeValuesFromSchemas_outcome _ _ _ _ _ _ _ apiVersions). }
  pose proof Hagain as Hagain'.
  apply ComposeValuesFromSchemas_Ok in Hagain' as (_ & _ & _ & _ & _ & _ &
          _ & _ & _ & _ & _ & _ & _ & Hsecond).
  apply ComposeValuesFromSchemas_Ok in H as
      (valueValidator & storage & schemas & values & rawValues & digests &
       _ & _ & _ & _ & Hloop & Hdigests & Hctx & Hfirst).
  fold run in Hfirst, Hsecond. rewrite Hfirst in Hsecond.
  rewrite <- (assoc_L (++)) in Hsecond.
  rewrite Hctx in Hagain |- *. clear Hctx.
  cbn [top Chart Capabilities Release Values APIVersions].
  split; [done|]. split; [done|]. split; [|split].
  - intros key Hkey.
    destruct (decide (key = "global")) as [->|Hglobal]; [by right|left].
    rewrite applyDigests_other in Hkey by done.
    rewrite (parsePropertiesLoop_lookup _ _ _ key Hloop) in Hkey.
    rewrite combinedSchema_lookup in Hkey by exact Hglobal.
    clear Hloop Hdigests.
    destruct (decide (key = ToLowerCamel (GetName m))) as [->|Hne];
      [reflexivity|].
    destruct Hkey as [v Hv]. discriminate Hv.
  - clear Hloop.
    destruct (applyDigests_table digests rawValues) as (table & Htable & Hentries).
    exists digests, table. split; [|exact (conj Htable Hentries)].
    exact (GetModulesImagesDigests_Ok _ _ _ _ _ Hdigests).
  - clear Hloop Hdigests.
    split; [reflexivity|]. split; [exact Hfirst|]. split; [exact Hagain|].
    rewrite Hfirst. exact Hsecond.
Qed.

Lemma ComposeValuesFromSchemas_context_witness :
  (compose moduleWithValues emptyGlobal).1 =
    Ok (Some (top myModule
                {[ "myModule" := VMap {[ "replicas" := VNum 3 ]};
                   "global" :=
                     VMap {[ "modulesImages" :=
                               VMap {[ "digests" := VMap digestTable ]} ]} ]})) ∧
  (compose moduleWithValues emptyGlobal).2 =
    ["v1"; "autoscaling.k8s.io/v1/VerticalPodAutoscaler"] ∧
  (ComposeValuesFromSchemas unit (loaded moduleWithValues emptyGlobal)
     (λ _, "myModule") digestTable (λ _, None)
     (λ _, inr (ErrExternal "no digest file")) myModule
     (compose moduleWithValues emptyGlobal).2).2 =
    ["v1"; "autoscaling.k8s.io/v1/VerticalPodAutoscaler";
     "autoscaling.k8s.io/v1/VerticalPodAutoscaler"].
Proof.
  assert (H : (compose moduleWithValues emptyGlobal).1 =
    Ok (Some (top myModule
                {[ "myModule" := VMap {[ "replicas" := VNum 3 ]};
                   "global" :=
                     VMap {[ "modulesImages" :=
                               VMap {[ "digests" := VMap digestTable ]} ]} ]})))
    by (vm_compute; reflexivity).
  pose proof (ComposeValuesFromSchemas_context unit
                (loaded moduleWithValues emptyGlobal)
                (λ _, "myModule") digestTable (λ _, None)
                (λ _, inr (ErrExternal "no digest file")) myModule ["v1"] _ H)
    as (_ & _ & _ & _ & _ & Hfirst & _ & Hsecond).
  exact (conj H (conj Hfirst Hsecond)).
Defined.

(** X22. The values of the module in the context of a successful call.
    The module schema goes to the generator with an empty mapping as
    default.  So, for a module schema without [x-examples] and a camel-cased
    module name other than ["global"]: when the schema has no [enum] and its
    types include ["object"], the values of the module are the mapping
    generated from the properties of the schema; in every other case they
    are the empty mapping, whatever the properties, the items, the [oneOf]
    and the [anyOf] of the schema. *)
Theorem ComposeValuesFromSchemas_module_values
        (ChartMetadata : Type)
        (NewValuesValidator : string → string → option ValuesValidator + error)
        (ToLowerCamel : string → string)
        (DefaultImagesDigests : gmap string value)
        (statDigestFile : string → option Z)
        (getModulesImagesDigestsFromLocalPath : string → gmap string value + error)
        (m : Module ChartMetadata) (apiVersions : list string)
        (ctx : RenderContext ChartMetadata)
        (valueValidator : ValuesValidator) (storage : SchemaStorage)
        (schemas : gmap string (option Schema)) (values : Schema) :
  NewValuesValidator (GetName m) (GetPath m) = inl (Some valueValidator) →
  ModuleSchemaStorages valueValidator !! GetName m = Some storage →
  Schemas storage = Some schemas →
  schemas !! "values" = Some (Some values) →
  ToLowerCamel (GetName m) ≠ "global" →
  hasExamples values = false →
  (ComposeValuesFromSchemas ChartMetadata NewValuesValidator ToLowerCamel
     DefaultImagesDigests statDigestFile
     getModulesImagesDigestsFromLocalPath m apiVersions).1 = Ok (Some ctx) →
  (hasEnum values = false → isObject values = true →
   ∃ t, Do (Some values) = Ok (Some t) ∧
        Values ctx !! ToLowerCamel (GetName m) = Some (VMap t)) ∧
  (hasEnum values = true ∨ isObject values = false →
   Values ctx !! ToLowerCamel (GetName m) = Some (VMap ∅)).
Proof.
  intros Hload Hstorage Hschemas Hvalues Hcamel Hex
         (valueValidator' & storage' & schemas' & values' & rawValues & digests &
          Hload' & Hstorage' & Hschemas' & Hvalues' & Hloop & _ & -> & _)
           %ComposeValuesFromSchemas_Ok.
  rewrite Hload in Hload'. injection Hload' as <-.
  rewrite Hstorage in Hstorage'. injection Hstorage' as <-.
  rewrite Hschemas in Hschemas'. injection Hschemas' as <-.
  rewrite Hvalues in Hvalues'. injection Hvalues' as <-.
  cbn [top Values]. rewrite applyDigests_other by done.
  rewrite (parsePropertiesLoop_lookup _ _ _ (ToLowerCamel (GetName m)) Hloop).
  assert (Hprop : props (combinedSchema (ToLowerCamel (GetName m)) values
                           (schemaAt (GlobalSchemaStorage valueValidator) "values"))
                    !! ToLowerCamel (GetName m) =
                  Some (setDefault (VMap ∅) values)).
  { rewrite combinedSchema_lookup by done. by rewrite decide_True. }
  destruct (parsePropertiesLoop_all_resolve _ _ _ _ _ Hloop Hprop)
    as [produced Hres].
  rewrite Hprop, Hres. rewrite resolve_empty_default in Hres by done. split.
  - intros Henum Hobj. rewrite Henum, Hobj in Hres. cbn [negb andb] in Hres.
    destruct (Do (Some values)) as [t| | |] eqn:Hdo; try done.
    destruct (Do_Some _ _ Hdo) as (out & -> & _).
    injection Hres as <-. by exists out.
  - intros Hother.
    assert (Hcond : negb (hasEnum values) && isObject values = false).
    { destruct Hother as [-> | ->]; [done|apply andb_false_r]. }
    rewrite Hcond in Hres. by injection Hres as <-.
Qed.

Lemma ComposeValuesFromSchemas_module_values_witness :
  (loaded moduleWithUntypedValues emptyGlobal (GetName myModule) (GetPath myModule) =
     inl (Some {| GlobalSchemaStorage := emptyGlobal;
                  ModuleSchemaStorages :=
                    {[ "my-module" := moduleWithUntypedValues ]} |}) ∧
   ({[ "my-module" := moduleWithUntypedValues ]} : gmap string SchemaStorage)
     !! GetName myModule = Some moduleWithUntypedValues ∧
   Schemas moduleWithUntypedValues = Some {[ "values" := Some untypedValues ]} ∧
   ({[ "values" := Some untypedValues ]} : gmap string (option Schema))
     !! "values" = Some (Some untypedValues) ∧
   "myModule" ≠ "global" ∧
   hasExamples untypedValues = false ∧
   isObject untypedValues = false ∧
   (compose moduleWithUntypedValues emptyGlobal).1 =
     Ok (Some (top myModule
                 {[ "myModule" := VMap ∅;
                    "global" :=
                      VMap {[ "modulesImages" :=
                                VMap {[ "digests" := VMap digestTable ]} ]} ]}))) ∧
  Values (top myModule
            {[ "myModule" := VMap ∅;
               "global" :=
                 VMap {[ "modulesImages" :=
                           VMap {[ "digests" := VMap digestTable ]} ]} ]})
    !! "myModule" = Some (VMap ∅).
Proof.
  assert (H : (compose moduleWithUntypedValues emptyGlobal).1 =
     Ok (Some (top myModule
                 {[ "myModule" := VMap ∅;
                    "global" :=
                      VMap {[ "modulesImages" :=
                                VMap {[ "digests" := VMap digestTable ]} ]} ]})))
    by (vm_compute; reflexivity).
  split; [repeat split; try exact H; try done; vm_compute; reflexivity|].
  exact (proj2 (ComposeValuesFromSchemas_module_values unit
                  (loaded moduleWithUntypedValues emptyGlobal)
                  (λ _, "myModule") digestTable (λ _, None)
                  (λ _, inr (ErrExternal "no digest file")) myModule ["v1"] _
                  _ moduleWithUntypedValues _ untypedValues
                  eq_refl eq_refl eq_refl eq_refl
                  ltac:(done) eq_refl H)
               (or_intror eq_refl)).
Defined.
(** * Further properties over the store *)

Module StoreMerge.

Import Store StoreFacts.

Lemma bind_run {A B} (x : M A) (f : A → M B) (σ σ1 : store) (a : A) :
  x σ = Ok (a, σ1) → (x ≫= f) σ = f a σ1.
Proof. unfold mbind, M_bind. by intros ->. Qed.

Lemma readSchema_run (l : loc) (s : Schema) (σ : store) :
  σ !! l = Some (CSchema s) → readSchema l σ = Ok (s, σ).
Proof. unfold readSchema. by intros ->. Qed.

Lemma readProps_run (l : loc) (m : gmap string Schema) (σ : store) :
  σ !! l = Some (CProps m) → readProps l σ = Ok (m, σ).
Proof. unfold readProps. by intros ->. Qed.

Lemma writeProps_run (l : loc) (m m' : gmap string Schema) (σ : store) :
  σ !! l = Some (CProps m) → writeProps l m' σ = Ok (tt, <[l := CProps m']> σ).
Proof. unfold writeProps. by intros ->. Qed.

Lemma writeSchema_run (l : loc) (s s' : Schema) (σ : store) :
  σ !! l = Some (CSchema s) → writeSchema l s' σ = Ok (tt, <[l := CSchema s']> σ).
Proof. unfold writeSchema. by intros ->. Qed.

(** The assignments of one branch, key by key: a key of the branch holds
    the property of the branch, another key holds what it held. *)
Lemma assignProperty_foldl (branch acc : gmap string Schema)
      (ks : list string) (key : string) :
  foldl (assignProperty branch) acc ks !! key =
    match (if decide (key ∈ ks) then branch !! key else None) with
    | Some prop => Some prop
    | None => acc !! key
    end.
Proof.
  revert acc. induction ks as [|k ks IH]; intros acc; cbn [foldl].
  - by rewrite decide_False by apply not_elem_of_nil.
  - rewrite IH. unfold assignProperty.
    destruct (decide (key ∈ ks)) as [Hin|Hin].
    + rewrite (decide_True (P := key ∈ k :: ks)) by (by right).
      destruct (branch !! key) as [prop|] eqn:Hkey; [done|].
      destruct (branch !! k) as [prop'|] eqn:Hk; [|done].
      rewrite lookup_insert_ne; [done|]. intros ->. congruence.
    + destruct (decide (key = k)) as [->|Hne].
      * rewrite (decide_True (P := k ∈ k :: ks)) by (by left).
        destruct (branch !! k) as [prop|]; [by rewrite lookup_insert_eq|done].
      * rewrite (decide_False (P := key ∈ k :: ks))
          by (intros [?|?]%elem_of_cons; done).
        destruct (branch !! k) as [prop|]; [by rewrite lookup_insert_ne|done].
Qed.

Lemma assignProperty_keys (branch acc : gmap string Schema) :
  foldl (assignProperty branch) acc (keys branch) = branch ∪ acc.
Proof.
  apply map_eq. intros key. rewrite assignProperty_foldl.
  destruct (branch !! key) as [prop|] eqn:Hkey.
  - rewrite decide_True.
    + symmetry. by apply lookup_union_Some_l.
    + unfold keys. apply list_elem_of_fmap. exists (key, prop).
      split; [done|]. by apply elem_of_map_to_list.
  - rewrite lookup_union_r by done. by destruct (decide _).
Qed.

Lemma mergedInto_distinct (σ0 σ : store) (root pl : loc)
      (acc : gmap string Schema) :
  mergedInto σ0 root pl acc σ → pl ≠ root.
Proof. intros (Hpl & _ & (s & Hroot & _) & _) ->. congruence. Qed.

(** The loop over the keys of one branch. *)
Lemma assign_loop (σ0 : store) (root pl bl : loc) (bm : gmap string Schema)
      (ks : list string) :
  bl ≠ pl → bl ≠ root → σ0 !! bl = Some (CProps bm) →
  ∀ acc σ, mergedInto σ0 root pl acc σ →
    ∃ σ',
      forEach ks (λ key,
        branch ← readProps bl;
        match branch !! key with
        | None => mret tt
        | Some prop =>
            root ← readSchema root;
            match Properties root with
            | None => panic "assignment to entry in nil map"
            | Some rootProperties =>
                m ← readProps rootProperties;
                writeProps rootProperties (<[key := prop]> m)
            end
        end) σ = Ok (tt, σ') ∧
      mergedInto σ0 root pl (foldl (assignProperty bm) acc ks) σ'.
Proof.
  intros Hbl Hblroot Hbm. induction ks as [|k ks IH]; intros acc σ HI.
  - by exists σ.
  - cbn [forEach foldl].
    pose proof (mergedInto_distinct _ _ _ _ _ HI) as Hne.
    destruct HI as (Hpl & Hlen & (s & Hroot & Hs) & Hother).
    assert (Hbranch : σ !! bl = Some (CProps bm)) by (by rewrite Hother).
    match goal with
    | |- ∃ σ', (?body ≫= _) σ = _ ∧ _ =>
        assert (Hbody : ∃ σ1, body σ = Ok (tt, σ1) ∧
                              mergedInto σ0 root pl (assignProperty bm acc k) σ1)
    end.
    { rewrite (bind_run _ _ _ _ _ (readProps_run _ _ _ Hbranch)).
      unfold assignProperty. destruct (bm !! k) as [prop|].
      - rewrite (bind_run _ _ _ _ _ (readSchema_run _ _ _ Hroot)), Hs.
        rewrite (bind_run _ _ _ _ _ (readProps_run _ _ _ Hpl)).
        rewrite (writeProps_run _ _ (<[k := prop]> acc) _ Hpl).
        eexists. split; [reflexivity|]. split; [|split; [|split]].
        + apply list_lookup_insert_eq. by eapply lookup_lt_Some.
        + by rewrite length_insert.
        + exists s. by rewrite list_lookup_insert_ne.
        + intros l Hl Hlroot. rewrite list_lookup_insert_ne by done.
          by apply Hother.
      - exists σ. split; [reflexivity|].
        split; [done|]. split; [done|]. split; [|done]. by exists s. }
    destruct Hbody as (σ1 & Hrun & HI1).
    rewrite (bind_run _ _ _ _ _ Hrun). by apply IH.
Qed.

(** The loop over the branches. *)
Lemma merge_loop (σ0 : store) (root pl : loc) (schemas : list Schema) :
  Forall (λ schema, ∀ bl, Properties schema = Some bl →
                          bl ≠ pl ∧ ∃ bm, σ0 !! bl = Some (CProps bm)) schemas →
  is_Some (σ0 !! root ≫= λ c, match c with CSchema s => Some s | _ => None end) →
  ∀ acc σ, mergedInto σ0 root pl acc σ →
    ∃ σ',
      forEach schemas (λ schema,
        match Properties schema with
        | None => mret tt
        | Some schemaProperties =>
            branch ← readProps schemaProperties;
            forEach (keys branch) (λ key,
              branch ← readProps schemaProperties;
              match branch !! key with
              | None => mret tt
              | Some prop =>
                  root ← readSchema root;
                  match Properties root with
                  | None => panic "assignment to entry in nil map"
                  | Some rootProperties =>
                      m ← readProps rootProperties;
                      writeProps rootProperties (<[key := prop]> m)
                  end
              end)
        end;;
        root' ← readSchema root;
        writeSchema root
          (setCompositions (OneOf schema) (AllOf schema) (AnyOf schema) root')) σ =
      Ok (tt, σ') ∧
      mergedInto σ0 root pl
        (foldl (λ acc schema, propsAt σ0 schema ∪ acc) acc schemas) σ'.
Proof.
  intros Hbranches Hroot0.
  induction Hbranches as [|schema schemas Hschema _ IH]; intros acc σ HI.
  - by exists σ.
  - cbn [forEach foldl].
    pose proof (mergedInto_distinct _ _ _ _ _ HI) as Hne.
    match goal with
    | |- ∃ σ', ((?inner ≫= ?rest) ≫= _) σ = _ ∧ _ =>
        assert (Hinner : ∃ σ1, inner σ = Ok (tt, σ1) ∧
                               mergedInto σ0 root pl (propsAt σ0 schema ∪ acc) σ1)
    end.
    { unfold propsAt. destruct (Properties schema) as [bl|] eqn:Hprops.
      - destruct (Hschema bl eq_refl) as (Hbl & bm & Hbm).
        assert (Hblroot : bl ≠ root).
        { intros ->. rewrite Hbm in Hroot0. by destruct Hroot0. }
        assert (Hbranch : σ !! bl = Some (CProps bm)).
        { destruct HI as (_ & _ & _ & Hother). by rewrite Hother. }
        rewrite Hbm, (bind_run _ _ _ _ _ (readProps_run _ _ _ Hbranch)).
        rewrite <- assignProperty_keys.
        by apply (assign_loop σ0 root pl bl bm).
      - exists σ. split; [reflexivity|]. by rewrite (left_id_L ∅ (∪)). }
    destruct Hinner as (σ1 & Hrun & HI1).
    destruct HI1 as (Hpl & Hlen & (s & Hroot & Hs) & Hother).
    match goal with
    | |- ∃ σ', (?body ≫= _) σ = _ ∧ _ =>
        assert (Hbody : body σ =
                  Ok (tt, <[root := CSchema (setCompositions (OneOf schema)
                                                (AllOf schema) (AnyOf schema) s)]> σ1))
    end.
    { rewrite (bind_run _ _ _ _ _ Hrun).
      rewrite (bind_run _ _ _ _ _ (readSchema_run _ _ _ Hroot)).
      by rewrite (writeSchema_run _ _ _ _ Hroot). }
    rewrite (bind_run _ _ _ _ _ Hbody). apply IH.
    split; [|split; [|split]].
    + by rewrite list_lookup_insert_ne.
    + by rewrite length_insert.
    + exists (setCompositions (OneOf schema) (AllOf schema) (AnyOf schema) s).
      split; [|exact Hs].
      apply list_lookup_insert_eq. by eapply lookup_lt_Some.
    + intros l Hl Hlroot. rewrite list_lookup_insert_ne by done. by apply Hother.
Qed.

(** X23. [mergeSchemas] works in place.  Given a pointer to a root whose
    property map is there, and branches whose property maps are other maps
    of the store, it returns the pointer it was given, allocates nothing,
    and writes two objects only: the root, and the property map of the
    root, which afterwards holds the properties of the branches laid over
    what it held, a later branch winning over an earlier one.  Every schema
    that shares this property map sees the merged properties. *)
Theorem mergeSchemas_in_place (root pl : loc) (s : Schema)
        (m0 : gmap string Schema) (schemas : list Schema) (σ : store) :
  σ !! root = Some (CSchema s) → Properties s = Some pl →
  σ !! pl = Some (CProps m0) →
  Forall (λ schema, ∀ bl, Properties schema = Some bl →
                          bl ≠ pl ∧ ∃ bm, σ !! bl = Some (CProps bm)) schemas →
  ∃ σ',
    mergeSchemas (Some root) schemas σ = Ok (root, σ') ∧
    σ' !! pl =
      Some (CProps (foldl (λ acc schema, propsAt σ schema ∪ acc) m0 schemas)) ∧
    length σ' = length σ ∧
    ∀ l, l ≠ pl → l ≠ root → σ' !! l = σ !! l.
Proof.
  intros Hroot Hs Hpl Hbranches.
  assert (Hne : pl ≠ root) by (intros ->; congruence).
  unfold mergeSchemas.
  rewrite (bind_run _ _ σ σ root) by reflexivity.
  rewrite (bind_run _ _ _ _ _ (readSchema_run _ _ _ Hroot)), Hs.
  rewrite (bind_run _ _ σ σ tt) by reflexivity.
  rewrite (bind_run _ _ _ _ _ (readSchema_run _ _ _ Hroot)).
  rewrite (bind_run _ _ _ _ _ (writeSchema_run _ _ _ _ Hroot)).
  destruct (merge_loop σ root pl schemas Hbranches) with
    (acc := m0) (σ := <[root := CSchema (setCompositions None None None s)]> σ)
    as (σ' & Hrun & Hpl' & Hlen & _ & Hother).
  - by rewrite Hroot.
  - split; [|split; [|split]].
    + by rewrite list_lookup_insert_ne.
    + by rewrite length_insert.
    + exists (setCompositions None None None s). split; [|exact Hs].
      apply list_lookup_insert_eq. by eapply lookup_lt_Some.
    + intros l Hl Hlroot. by rewrite list_lookup_insert_ne.
  - exists σ'. rewrite (bind_run _ _ _ _ _ Hrun). done.
Qed.

Lemma mergeSchemas_in_place_witness :
  (inPlaceStore !! 2 = Some (CSchema (setProperties (Some 0) emptySchema)) ∧
   Properties (setProperties (Some 0) emptySchema) = Some 0 ∧
   inPlaceStore !! 0 = Some (CProps {[ "a" := leaf (VNum 1) ]})) ∧
  ∃ σ',
    mergeSchemas (Some 2) [setProperties (Some 1) emptySchema] inPlaceStore =
      Ok (2, σ') ∧
    σ' !! 0 =
      Some (CProps (foldl (λ acc schema, propsAt inPlaceStore schema ∪ acc)
                          {[ "a" := leaf (VNum 1) ]}
                          [setProperties (Some 1) emptySchema])) ∧
    length σ' = length inPlaceStore ∧
    ∀ l, l ≠ 0 → l ≠ 2 → σ' !! l = inPlaceStore !! l.
Proof.
  split; [by repeat split|].
  apply (mergeSchemas_in_place 2 0 (setProperties (Some 0) emptySchema)
           {[ "a" := leaf (VNum 1) ]} [setProperties (Some 1) emptySchema]
           inPlaceStore eq_refl eq_refl eq_refl).
  repeat constructor; intros; simplify_eq/=; [lia|eexists; reflexivity].
Defined.

(** X24. [parseOneOf] and [parseAnyOf] merge over a copy.  Whatever the
    store, the property and the branches: once [deepcopy.Copy] has returned
    a copy of the property and [mergeSchemas] has merged the branches into
    the copy, the merged schema is the copy, a location that was not there
    before the copy, and every object that was there before is as it
    was. *)
Theorem mergeSchemas_on_copy (fuel : nat) (prop d m : loc)
        (schemas : list Schema) (σ σ1 σ2 : store) :
  deepcopy_Copy fuel prop σ = Ok (d, σ1) →
  mergeSchemas (Some d) schemas σ1 = Ok (m, σ2) →
  m = d ∧ length σ ≤ d ∧
  ∀ l c, σ !! l = Some c → σ2 !! l = Some c.
Proof.
  intros Hcopy Hmerge.
  pose proof (merge_on_copy_frame _ _ _ _ _ _ _ _ Hcopy Hmerge) as Hframe.
  apply deepcopy_Copy_fresh in Hcopy as (_ & Hd & _).
  split; [|split; [done|]].
  - unfold mergeSchemas in Hmerge.
    apply bind_Ok in Hmerge as (r & σa & [-> ->]%ret_Ok & Hmerge).
    do 5 (apply bind_Ok in Hmerge as (? & ? & _ & Hmerge)).
    by apply ret_Ok in Hmerge as [-> _].
  - intros l c Hl. rewrite <- Hframe in Hl.
    rewrite lookup_take_Some in Hl. by destruct Hl.
Qed.

Lemma mergeSchemas_on_copy_witness :
  (deepcopy_Copy 10 2 oneOfStore = Ok (6, oneOfCopied) ∧
   mergeSchemas (Some 6) (default [] (OneOf oneOfBranches)) oneOfCopied =
     Ok (6, oneOfMerged)) ∧
  6 = 6 ∧ length oneOfStore ≤ 6 ∧
  ∀ l c, oneOfStore !! l = Some c → oneOfMerged !! l = Some c.
Proof.
  assert (Hcopy : deepcopy_Copy 10 2 oneOfStore = Ok (6, oneOfCopied))
    by (vm_compute; reflexivity).
  assert (Hmerge : mergeSchemas (Some 6) (default [] (OneOf oneOfBranches))
                     oneOfCopied = Ok (6, oneOfMerged))
    by (vm_compute; reflexivity).
  split; [exact (conj Hcopy Hmerge)|].
  exact (mergeSchemas_on_copy 10 2 6 6 _ _ _ _ Hcopy Hmerge).
Defined.

End StoreMerge.
